(** * F1 telemetry delta pipeline: a shallow embedding of
      [F1TelemetryDeltaCalculator] (delta_calculator_module.py)

    Conventions of the embedding.

    - A Python/NumPy [float] is an exact rational ([Q]); equality of floats
      is [Qeq] ([==]).  Every division the program performs is by a divisor
      the program has guarded to be non-zero, so the total division of [Q]
      never stands in for an IEEE infinity or NaN on the paths modelled.
    - A pandas [DataFrame] with the columns [Distance], [Speed] (and, after
      time reconstruction, [Time]) is a list of rows; a column is the [map]
      of a projection.
    - A raised Python exception is the [Raise] constructor of [result].
    - [print] calls are dropped, except where evaluating their arguments can
      raise. *)

From Stdlib Require Import QArith Qabs Qround Qminmax ZArith List Lia Lqa Bool.
From Stdlib Require Import Sorting.Sorted.
From Stdlib Require Strings.String.
Import ListNotations.

Local Open Scope Q_scope.

(** ** Exceptions and the error monad *)

Inductive exn : Type :=
| ValueError
| IndexError
| UnboundLocalError
| ArangeLengthError.

Inductive result (A : Type) : Type :=
| Ok (a : A)
| Raise (e : exn).

Arguments Ok {A} a.
Arguments Raise {A} e.

Definition bind {A B : Type} (m : result A) (k : A -> result B) : result B :=
  match m with
  | Ok a => k a
  | Raise e => Raise e
  end.

Notation "x <- m ;; k" := (bind m (fun x => k))
  (at level 61, m at next level, right associativity).

(** ** Data model *)

(** One row of a telemetry frame.  [T] is [unit] for a frame without a
    [Time] column and [Q] for a frame that has one. *)
Record Row (T : Type) : Type := mkRow {
  Distance : Q;
  Speed : Q;
  Time : T
}.

Arguments mkRow {T} _ _ _.
Arguments Distance {T} _.
Arguments Speed {T} _.
Arguments Time {T} _.

Definition DataFrame (T : Type) : Type := list (Row T).

(** ** Comparisons on floats *)

Definition Qlt_bool (x y : Q) : bool :=
  match x ?= y with
  | Lt => true
  | _ => false
  end.

(** Python's builtin [max(a, b)]: [b] when [b > a], else [a]. *)
Definition py_max (a b : Q) : Q := if Qlt_bool a b then b else a.

(** Python's builtin [min(a, b)]: [b] when [b < a], else [a]. *)
Definition py_min (a b : Q) : Q := if Qlt_bool b a then b else a.

(** [Series.min()] / [ndarray.min()] of a non-empty column; [d] stands for
    the NaN of an empty one and is never read on the paths modelled. *)
Definition col_min (d : Q) (l : list Q) : Q :=
  match l with
  | [] => d
  | x :: tl => fold_left py_min tl x
  end.

Definition col_max (d : Q) (l : list Q) : Q :=
  match l with
  | [] => d
  | x :: tl => fold_left py_max tl x
  end.

(** ** NumPy primitives *)

(** Element-wise binary operation on two arrays of the same length. *)
Fixpoint map2 {A B C : Type} (f : A -> B -> C) (l : list A) (l' : list B)
  : list C :=
  match l, l' with
  | a :: tl, b :: tl' => f a b :: map2 f tl tl'
  | _, _ => []
  end.

(** [np.diff(a)]: [a[1:] - a[:-1]]. *)
Definition np_diff (a : list Q) : list Q :=
  map2 (fun hi lo => hi - lo) (tl a) (removelast a).

(** [np.cumsum(a)]. *)
Fixpoint running (acc : Q) (a : list Q) : list Q :=
  match a with
  | [] => []
  | x :: tl => (acc + x) :: running (acc + x) tl
  end.

Definition np_cumsum (a : list Q) : list Q :=
  match a with
  | [] => []
  | x :: tl => x :: running x tl
  end.

(** [a[-1]] of a non-empty array. *)
Definition last_of (a : list Q) : Q := last a 0.

(** [np.arange(start, stop, step)] on floats: [ceil((stop - start) / step)]
    values [start + i * step].  With a zero step NumPy cannot compute a
    length and raises (the exception class depends on the NumPy version). *)
Definition np_arange (start stop step : Q) : result (list Q) :=
  if Qeq_bool step 0 then Raise ArangeLengthError
  else
    let n := Z.to_nat (Qceiling ((stop - start) / step)) in
    Ok (map (fun i => start + inject_Z (Z.of_nat i) * step) (seq 0 n)).

(** [np.linspace(start, stop, num)] with [num = n + 1] points: the points
    [start + i * step] with [step = (stop - start) / n], the last one set
    to [stop] itself. *)
Definition np_linspace (start stop : Q) (n : nat) : list Q :=
  let step := (stop - start) / inject_Z (Z.of_nat n) in
  map (fun i => if Nat.eqb i n then
                  (if Nat.eqb n 0 then start else stop)
                else start + inject_Z (Z.of_nat i) * step)
      (seq 0 (S n)).

(** [np.mean(a)]. *)
Definition np_sum (a : list Q) : Q := fold_left Qplus a 0.

Definition np_mean (a : list Q) : Q :=
  np_sum a / inject_Z (Z.of_nat (length a)).

(** *** [np.interp]

    One-dimensional piecewise-linear interpolation with the end values held
    outside the sample range, for sample points [xp] in increasing order
    (NumPy's documented precondition).  NumPy locates [j] with
    [xp[j] <= x < xp[j+1]]; [interp_scan] walks the samples up to the
    first [xp[j+1] > x], which is that [j]. *)
Fixpoint interp_scan (x x0 f0 : Q) (rest : list (Q * Q)) : Q :=
  match rest with
  | [] => f0
  | (x1, f1) :: rest' =>
      if Qle_bool x1 x then interp_scan x x1 f1 rest'
      else if Qeq_bool x0 x then f0
      else (f1 - f0) / (x1 - x0) * (x - x0) + f0
  end.

Definition interp1 (x : Q) (xp fp : list Q) : Q :=
  match combine xp fp with
  | [] => 0
  | (x0, f0) :: rest =>
      if Qlt_bool (last_of xp) x then last_of fp
      else if Qlt_bool x x0 then f0
      else interp_scan x x0 f0 rest
  end.

(** [np.interp(x, xp, fp)]: raises [ValueError] on an empty [xp] and on
    [xp], [fp] of different lengths. *)
Definition np_interp (x xp fp : list Q) : result (list Q) :=
  match xp with
  | [] => Raise ValueError
  | _ :: _ =>
      if Nat.eqb (length xp) (length fp)
      then Ok (map (fun v => interp1 v xp fp) x)
      else Raise ValueError
  end.

(** ** Step 1: [calculate_custom_time] *)

Section CustomTime.
Context {T : Type}.

Definition kmh_to_ms (v : Q) : Q := v / (36 # 10).

(** [speeds_ms = speeds_kmh / 3.6] *)
Definition speeds_ms (telemetry : DataFrame T) : list Q :=
  map kmh_to_ms (map Speed telemetry).

(** [(speeds_ms[:-1] + speeds_ms[1:]) / 2] *)
Definition avg_speeds_raw (telemetry : DataFrame T) : list Q :=
  let s := speeds_ms telemetry in
  map2 (fun a b => (a + b) / 2) (removelast s) (tl s).

(** [np.where(avg_speeds == 0, 0.001, avg_speeds)]: the divisors of the
    time differentials. *)
Definition zero_guard (a : Q) : Q :=
  if Qeq_bool a 0 then 1 # 1000 else a.

Definition avg_speeds (telemetry : DataFrame T) : list Q :=
  map zero_guard (avg_speeds_raw telemetry).

(** [dt = ds / avg_speeds] *)
Definition time_differentials (telemetry : DataFrame T) : list Q :=
  map2 Qdiv (np_diff (map Distance telemetry)) (avg_speeds telemetry).

(** [custom_time = np.cumsum(np.concatenate([[0], dt]))] *)
Definition custom_time (telemetry : DataFrame T) : list Q :=
  np_cumsum (0 :: time_differentials telemetry).

(** The [if custom_time[-1] > 0] rescaling. *)
Definition scaled_time (telemetry : DataFrame T) (real_laptime : Q)
  : list Q :=
  let ct := custom_time telemetry in
  if Qlt_bool 0 (last_of ct)
  then map (fun t => t * (real_laptime / last_of ct)) ct
  else ct.

(** [result['Time'] = values]: pandas raises [ValueError] when the number
    of values differs from the number of rows. *)
Definition set_time (telemetry : DataFrame T) (values : list Q)
  : result (DataFrame Q) :=
  if Nat.eqb (length values) (length telemetry)
  then Ok (map2 (fun r t => mkRow (Distance r) (Speed r) t)
                telemetry values)
  else Raise ValueError.

Definition calculate_custom_time (telemetry : DataFrame T)
    (real_laptime : Q) : result (DataFrame Q) :=
  set_time telemetry (scaled_time telemetry real_laptime).

End CustomTime.

(** ** Step 2: [windowed_mse_alignment] *)

(** The values of [np.arange(start, stop, 1)]; the step is the literal [1],
    so the zero-step error of [np_arange] cannot occur. *)
Definition unit_grid (start stop : Q) : list Q :=
  let n := Z.to_nat (Qceiling ((stop - start) / 1)) in
  map (fun i => start + inject_Z (Z.of_nat i) * 1) (seq 0 n).

(** [np.arange(-15, 16, 1)] *)
Definition offsets : list Z :=
  map (fun i => (-15 + Z.of_nat i)%Z) (seq 0 31).

Section Alignment.
Context {T : Type}.

(** [(col >= window_start) & (col <= window_end)] at one row. *)
Definition in_window (window_start window_end d : Q) : bool :=
  Qle_bool window_start d && Qle_bool d window_end.

(** [tel[mask]] *)
Definition restrict (window_start window_end : Q) (tel : DataFrame T)
  : DataFrame T :=
  filter (fun r => in_window window_start window_end (Distance r)) tel.

Definition shifted_distances (window_tel2 : DataFrame T) (offset : Z)
  : list Q :=
  map (fun r => Distance r + inject_Z offset) window_tel2.

Definition common_min_of (window_tel1 window_tel2 : DataFrame T)
    (offset : Z) : Q :=
  py_max (col_min 0 (map Distance window_tel1))
         (col_min 0 (shifted_distances window_tel2 offset)).

Definition common_max_of (window_tel1 window_tel2 : DataFrame T)
    (offset : Z) : Q :=
  py_min (col_max 0 (map Distance window_tel1))
         (col_max 0 (shifted_distances window_tel2 offset)).

(** [if common_max <= common_min: continue] *)
Definition no_overlap (window_tel1 window_tel2 : DataFrame T)
    (offset : Z) : bool :=
  Qle_bool (common_max_of window_tel1 window_tel2 offset)
           (common_min_of window_tel1 window_tel2 offset).

(** The body of the offset loop: [None] when the iteration ends in
    [continue] (no overlap, or an exception swallowed by the bare
    [except]), [Some mse] otherwise. *)
Definition offset_mse (window_tel1 window_tel2 : DataFrame T)
    (offset : Z) : option Q :=
  if no_overlap window_tel1 window_tel2 offset then None
  else
    let common_grid :=
      unit_grid (common_min_of window_tel1 window_tel2 offset)
                (common_max_of window_tel1 window_tel2 offset + 1) in
    match np_interp common_grid (map Distance window_tel1)
                    (map Speed window_tel1),
          np_interp common_grid (shifted_distances window_tel2 offset)
                    (map Speed window_tel2) with
    | Ok speed1_interp, Ok speed2_interp =>
        Some (np_mean (map2 (fun a b => (a - b) ^ 2)
                            speed1_interp speed2_interp))
    | _, _ => None
    end.

(** [mse < best_mse], where [None] is the initial [float('inf')]. *)
Definition improves (mse : Q) (best_mse : option Q) : bool :=
  match best_mse with
  | None => true
  | Some b => Qlt_bool mse b
  end.

Definition search_step (window_tel1 window_tel2 : DataFrame T)
    (best : Z * option Q) (offset : Z) : Z * option Q :=
  match offset_mse window_tel1 window_tel2 offset with
  | None => best
  | Some mse => if improves mse (snd best) then (offset, Some mse) else best
  end.

(** The offset loop, from [best_offset = 0], [best_mse = inf]. *)
Definition search_offset (window_tel1 window_tel2 : DataFrame T)
  : Z * option Q :=
  fold_left (search_step window_tel1 window_tel2) offsets (0%Z, None).

(** [tel2_aligned.loc[window_mask, 'Distance'] += best_offset], the mask
    being taken on the current [tel2_aligned['Distance']]. *)
Definition shift_window (window_start window_end : Q) (best_offset : Z)
    (tel2_aligned : DataFrame T) : DataFrame T :=
  map (fun r =>
         if in_window window_start window_end (Distance r)
         then mkRow (Distance r + inject_Z best_offset) (Speed r) (Time r)
         else r)
      tel2_aligned.

(** One iteration of the window loop. *)
Definition align_window (tel1 tel2 : DataFrame T)
    (window_start window_end : Q) (tel2_aligned : DataFrame T)
  : DataFrame T :=
  let window_tel1 := restrict window_start window_end tel1 in
  let window_tel2 := restrict window_start window_end tel2 in
  if (Nat.eqb (length window_tel1) 0 || Nat.eqb (length window_tel2) 0)%bool
  then tel2_aligned
  else shift_window window_start window_end
                    (fst (search_offset window_tel1 window_tel2))
                    tel2_aligned.

Definition min_dist_of (tel1 tel2 : DataFrame T) : Q :=
  py_max (col_min 0 (map Distance tel1)) (col_min 0 (map Distance tel2)).

Definition max_dist_of (tel1 tel2 : DataFrame T) : Q :=
  py_min (col_max 0 (map Distance tel1)) (col_max 0 (map Distance tel2)).

Definition window_boundaries (tel1 tel2 : DataFrame T) (num_windows : nat)
  : list Q :=
  np_linspace (min_dist_of tel1 tel2) (max_dist_of tel1 tel2) num_windows.

(** The window loop over a given list of window indices. *)
Definition align_windows (tel1 tel2 : DataFrame T) (wb : list Q)
    (idx : list nat) (tel2_aligned : DataFrame T) : DataFrame T :=
  fold_left (fun aligned i =>
               align_window tel1 tel2 (nth i wb 0) (nth (S i) wb 0) aligned)
            idx tel2_aligned.

(** With an empty [tel1] or [tel2] every mask the loop builds on that
    frame is empty, so every window is skipped whatever the (NaN)
    boundaries are; the defaults of [col_min]/[col_max] are not
    observable. *)
Definition windowed_mse_alignment (tel1 tel2 : DataFrame T)
    (num_windows : nat) : DataFrame T :=
  align_windows tel1 tel2 (window_boundaries tel1 tel2 num_windows)
                (seq 0 num_windows) tel2.

End Alignment.

(** ** Step 3: [resample_on_common_grid] *)

Fixpoint frame_of (d s t : list Q) : DataFrame Q :=
  match d, s, t with
  | d0 :: d', s0 :: s', t0 :: t' => mkRow d0 s0 t0 :: frame_of d' s' t'
  | _, _, _ => []
  end.

Definition resample_one (common_grid : list Q) (tel : DataFrame Q)
  : result (DataFrame Q) :=
  speed <- np_interp common_grid (map Distance tel) (map Speed tel) ;;
  time <- np_interp common_grid (map Distance tel) (map Time tel) ;;
  Ok (frame_of common_grid speed time).

(** An empty [tel1] makes the grid bounds NaN and [np.arange] raise
    [ValueError]; an empty [tel2] makes [np.interp] raise [ValueError]. *)
Definition resample_on_common_grid (tel1 tel2 : DataFrame Q) (grid_step : Q)
  : result (DataFrame Q * DataFrame Q) :=
  match tel1, tel2 with
  | [], _ | _, [] => Raise ValueError
  | _ :: _, _ :: _ =>
      let common_min := min_dist_of tel1 tel2 in
      let common_max := max_dist_of tel1 tel2 in
      common_grid <- np_arange common_min (common_max + grid_step) grid_step ;;
      tel1_resampled <- resample_one common_grid tel1 ;;
      tel2_resampled <- resample_one common_grid tel2 ;;
      Ok (tel1_resampled, tel2_resampled)
  end.

(** ** Step 4: [calculate_integration_delta] *)

Section Integration.
Context {T : Type}.

(** The [if time1_final < time2_final] role assignment:
    [(ref_speed, slow_speed)]. *)
Definition assign_roles (speed1 speed2 : list Q)
    (time1_final time2_final : Q) : list Q * list Q :=
  if Qlt_bool time1_final time2_final
  then (speed1, speed2)
  else (speed2, speed1).

(** Time over a segment of length [ds] between endpoint speeds [v0],
    [v1]: [ds / max((v0 + v1) / 2, 0.001)]. *)
Definition segment_time (ds v0 v1 : Q) : Q :=
  ds / py_max ((v0 + v1) / 2) (1 # 1000).

(** The body of the segment loop at index [i]: [dt_slow - dt_ref];
    [None] when an index is out of range. *)
Definition segment_delta (ds ref_speed slow_speed : list Q) (i : nat)
  : option Q :=
  match nth_error ref_speed i, nth_error ref_speed (S i),
        nth_error slow_speed i, nth_error slow_speed (S i),
        nth_error ds i with
  | Some r0, Some r1, Some s0, Some s1, Some d =>
      Some (segment_time d s0 s1 - segment_time d r0 r1)
  | _, _, _, _, _ => None
  end.

(** [for i in range(len(ds))], appending to [delta_cumulative]. *)
Fixpoint delta_loop (ds ref_speed slow_speed : list Q) (idx : list nat)
    (delta_cumulative : list Q) : result (list Q) :=
  match idx with
  | [] => Ok delta_cumulative
  | i :: rest =>
      match segment_delta ds ref_speed slow_speed i with
      | Some dt_delta =>
          delta_loop ds ref_speed slow_speed rest
            (delta_cumulative ++ [last_of delta_cumulative + dt_delta])
      | None => Raise IndexError
      end
  end.

(** [delta_raw] *)
Definition delta_raw (tel1 tel2 : DataFrame T)
    (time1_final time2_final : Q) : result (list Q) :=
  let speed1 := map kmh_to_ms (map Speed tel1) in
  let speed2 := map kmh_to_ms (map Speed tel2) in
  let ds := np_diff (map Distance tel1) in
  let roles := assign_roles speed1 speed2 time1_final time2_final in
  delta_loop ds (fst roles) (snd roles) (seq 0 (length ds)) [0].

(** The rescaling and the diagnostics.  [scale_factor] is bound only in
    the branch that rescales; the later
    [print(f"Scale factor: {scale_factor:.3f}")] reads it on both paths
    and raises [UnboundLocalError] on the other one. *)
Definition rescale (raw : list Q) (time1_final time2_final : Q)
  : result (list Q) :=
  let real_gap := Qabs (time1_final - time2_final) in
  if Qlt_bool 0 (Qabs (last_of raw))
  then
    let scale_factor := real_gap / Qabs (last_of raw) in
    Ok (map (fun d => d * scale_factor) raw)
  else Raise UnboundLocalError.

Definition calculate_integration_delta (tel1 tel2 : DataFrame T)
    (time1_final time2_final : Q) : result (list Q) :=
  raw <- delta_raw tel1 tel2 time1_final time2_final ;;
  rescale raw time1_final time2_final.

End Integration.

(** ** The pipeline: [calculate_delta]

    [get_driver_telemetry] is the external acquisition step; the pipeline
    is modelled from its outputs [tel1], [tel2], [real_laptime1],
    [real_laptime2].  The result is [(delta, distances)]; the summary frame
    only regroups columns already computed. *)

Definition pipeline_grids {T : Type} (tel1 tel2 : DataFrame T)
    (real_laptime1 real_laptime2 : Q) (num_windows : nat) (grid_step : Q)
  : result (DataFrame Q * DataFrame Q) :=
  tel1_timed <- calculate_custom_time tel1 real_laptime1 ;;
  tel2_timed <- calculate_custom_time tel2 real_laptime2 ;;
  let tel2_aligned := windowed_mse_alignment tel1_timed tel2_timed
                        num_windows in
  resample_on_common_grid tel1_timed tel2_aligned grid_step.

Definition calculate_delta {T : Type} (tel1 tel2 : DataFrame T)
    (real_laptime1 real_laptime2 : Q) (num_windows : nat) (grid_step : Q)
  : result (list Q * list Q) :=
  grids <- pipeline_grids tel1 tel2 real_laptime1 real_laptime2
             num_windows grid_step ;;
  delta <- calculate_integration_delta (fst grids) (snd grids)
             real_laptime1 real_laptime2 ;;
  Ok (delta, map Distance (fst grids)).

(** ** Views and predicates used to state the properties *)

(** Consecutive pairs of a list, combined by [f]. *)
Fixpoint adjacent {A B : Type} (f : A -> A -> B) (l : list A) : list B :=
  match l with
  | a :: (b :: _) as tl => f a b :: adjacent f tl
  | _ => []
  end.

Section Predicates.
Context {T : Type}.

(** The time differential of the segment between rows [r0] and [r1]. *)
Definition segment_dt (r0 r1 : Row T) : Q :=
  (Distance r1 - Distance r0)
  / zero_guard ((kmh_to_ms (Speed r0) + kmh_to_ms (Speed r1)) / 2).

Definition increasing_distances (tel : DataFrame T) : Prop :=
  Sorted Qlt (map Distance tel).

Definition nonneg_speeds (tel : DataFrame T) : Prop :=
  Forall (fun r => 0 <= Speed r) tel.

(** A valid raw trace: at least two samples, strictly increasing
    distances, non-negative speeds (every value of [Q] is finite). *)
Definition valid_trace (tel : DataFrame T) : Prop :=
  (2 <= length tel)%nat /\ increasing_distances tel /\ nonneg_speeds tel.

End Predicates.

(** The time one trace takes over segment [i] of the grid: [ds[i]] over
    its floored average speed there. *)
Definition trace_dt (ds speed : list Q) (i : nat) : option Q :=
  match nth_error speed i, nth_error speed (S i), nth_error ds i with
  | Some v0, Some v1, Some d => Some (segment_time d v0 v1)
  | _, _, _ => None
  end.

(** Two rows that agree, the distance up to equality of rationals. *)
Definition same_row {T : Type} (r r' : Row T) : Prop :=
  Distance r' == Distance r /\ Speed r' = Speed r /\ Time r' = Time r.

(** A window in which the search cannot score any offset: one of the two
    restrictions is empty, or every candidate offset leaves no overlap of
    the two distance ranges. *)
Definition window_degenerate {T : Type} (tel1 tel2 : DataFrame T)
    (window_start window_end : Q) : Prop :=
  restrict window_start window_end tel1 = []
  \/ restrict window_start window_end tel2 = []
  \/ forall offset, In offset offsets ->
        no_overlap (restrict window_start window_end tel1)
                   (restrict window_start window_end tel2) offset = true.

(** *** The apply step as the specification words it

    The offset chosen for a window is added to the samples of the full
    target trace whose original distance, the one in [tel2], lies inside
    the window, whatever earlier windows have done to [tel2_aligned].
    These definitions follow the specification, for comparison with
    [shift_window], [align_window] and [windowed_mse_alignment] above,
    which follow the source. *)
Section ApplyByOriginalDistance.
Context {T : Type}.

Definition shift_window_by_original (window_start window_end : Q)
    (best_offset : Z) (tel2 tel2_aligned : DataFrame T) : DataFrame T :=
  map2 (fun original r =>
          if in_window window_start window_end (Distance original)
          then mkRow (Distance r + inject_Z best_offset) (Speed r) (Time r)
          else r)
       tel2 tel2_aligned.

Definition align_window_by_original (tel1 tel2 : DataFrame T)
    (window_start window_end : Q) (tel2_aligned : DataFrame T)
  : DataFrame T :=
  let window_tel1 := restrict window_start window_end tel1 in
  let window_tel2 := restrict window_start window_end tel2 in
  if (Nat.eqb (length window_tel1) 0 || Nat.eqb (length window_tel2) 0)%bool
  then tel2_aligned
  else shift_window_by_original window_start window_end
         (fst (search_offset window_tel1 window_tel2)) tel2 tel2_aligned.

Definition alignment_by_original (tel1 tel2 : DataFrame T)
    (num_windows : nat) : DataFrame T :=
  let wb := window_boundaries tel1 tel2 num_windows in
  fold_left (fun aligned i =>
               align_window_by_original tel1 tel2 (nth i wb 0)
                                        (nth (S i) wb 0) aligned)
            (seq 0 num_windows) tel2.

End ApplyByOriginalDistance.

(** ** Concrete inputs *)

Definition raw_row (d s : Q) : Row unit := mkRow d s tt.

(** A three-sample trace used to exercise the statements. *)
Definition sample_trace : DataFrame unit :=
  [raw_row 0 100; raw_row 100 200; raw_row 200 100].

(** A trace crawling at 0.0018 km/h, i.e. 0.0005 m/s. *)
Definition crawl_trace : DataFrame unit :=
  [raw_row 0 (18 # 10000); raw_row 100 (18 # 10000)].

Definition grid_row (d s : Q) : Row Q := mkRow d s 0.

(** Two grid points 5 m apart, both traces at 100 km/h. *)
Definition flat_grid : DataFrame Q := [grid_row 0 100; grid_row 5 100].

(** Three grid points, the second trace slower than the first. *)
Definition fast_grid : DataFrame Q :=
  [grid_row 0 200; grid_row 5 220; grid_row 10 240].

Definition slow_grid : DataFrame Q :=
  [grid_row 0 180; grid_row 5 200; grid_row 10 210].

(** A frame that already carries a [Time] column. *)
Definition timed_trace : DataFrame Q :=
  [mkRow 0 100 0; mkRow 100 200 30; mkRow 250 150 90].

(** The end-to-end scenario: distances 0, 100, ..., 1000, every sample at
    the same speed [v]. *)
Definition scenario_trace (v : Q) : DataFrame unit :=
  map (fun i => raw_row (inject_Z (100 * Z.of_nat i)) v) (seq 0 11).

(** A reference trace and a target trace of the same lap whose distances
    read 2 m short; the target has a sample at 7 m, inside the first of two
    windows only. *)
Definition drift_ref : DataFrame unit :=
  [raw_row 0 180; raw_row 4 140; raw_row 8 100; raw_row 12 140;
   raw_row 16 180].

Definition drift_target : DataFrame unit :=
  [raw_row 0 160; raw_row 4 120; raw_row 7 110; raw_row 12 160;
   raw_row 16 200].

(** A reference trace with a single sample in the window [0, 50]. *)
Definition sparse_ref : DataFrame unit := [raw_row 0 100; raw_row 100 120].

Definition dense_target : DataFrame unit :=
  [raw_row 0 100; raw_row 50 110; raw_row 100 120].

(** ** Further predicates on the pipeline stages *)

(** Row [r'] is row [r] with its distance moved by a whole number of
    metres of magnitude at most [bound], and nothing else changed. *)
Definition moved_within {T : Type} (bound : Z) (r r' : Row T) : Prop :=
  Speed r' = Speed r /\ Time r' = Time r
  /\ exists k : Z, (Z.abs k <= bound)%Z
                  /\ Distance r' == Distance r + inject_Z k.


(** Two outcomes of [calculate_integration_delta] that agree: the same
    exception, or two series equal point for point. *)
Definition same_series (a b : result (list Q)) : Prop :=
  match a, b with
  | Ok d, Ok d' => Forall2 Qeq d d'
  | Raise e, Raise e' => e = e'
  | _, _ => False
  end.

(** At every grid point, the trace that [calculate_integration_delta]
    puts in the slow role is not faster than the one in the reference
    role. *)
Definition slow_role_never_faster {T : Type} (tel1 tel2 : DataFrame T)
    (time1_final time2_final : Q) : Prop :=
  Forall2 (fun r1 r2 =>
             if Qlt_bool time1_final time2_final
             then Speed r2 <= Speed r1
             else Speed r1 <= Speed r2)
          tel1 tel2.

(** * The export helpers of [utils.py]

    The string tags the helpers store in their result dictionaries
    (["driver1"], ["high_speed"], ["wide_view"], ...) are constructors of
    small enumerations; a result dictionary is a record with one field per
    key. *)

(** ** Indexing *)

(** [a[i]] for a Python integer [i]: a negative index counts from the end,
    anything outside [-len(a) .. len(a) - 1] raises [IndexError]. *)
Definition py_index (a : list Q) (i : Z) : result Q :=
  let n := Z.of_nat (length a) in
  let j := if (i <? 0)%Z then (n + i)%Z else i in
  if ((0 <=? j)%Z && (j <? n)%Z)%bool
  then match nth_error a (Z.to_nat j) with
       | Some v => Ok v
       | None => Raise IndexError
       end
  else Raise IndexError.

(** [np.argmin(a)] of a non-empty array: the index of the first minimum. *)
Fixpoint argmin_scan (best_i : nat) (best : Q) (i : nat) (a : list Q) : nat :=
  match a with
  | [] => best_i
  | x :: tl =>
      if Qlt_bool x best then argmin_scan i x (S i) tl
      else argmin_scan best_i best (S i) tl
  end.

Definition np_argmin (a : list Q) : nat :=
  match a with
  | [] => 0
  | x :: tl => argmin_scan 0 x 1 tl
  end.

(** A [for] loop that appends one computed entry per element and stops at
    the first exception. *)
Fixpoint collect {A B : Type} (f : A -> result B) (l : list A)
  : result (list B) :=
  match l with
  | [] => Ok []
  | a :: tl =>
      b <- f a ;;
      rest <- collect f tl ;;
      Ok (b :: rest)
  end.

(** ** [calculate_sector_boundaries] *)

Record SectorBoundaries : Type := mkSectors {
  sector1_end : Q;
  sector2_end : Q;
  sector3_end : Q
}.

(** [distances[-1]] and [distances[0]] raise [IndexError] on an empty
    array. *)
Definition calculate_sector_boundaries (distances : list Q)
  : result SectorBoundaries :=
  match distances with
  | [] => Raise IndexError
  | first :: _ =>
      let total_distance := last_of distances - first in
      Ok (mkSectors (first + total_distance * (3 # 10))
                    (first + total_distance * (65 # 100))
                    (last_of distances))
  end.

(** ** [create_position_markers] *)



(** [idx = np.argmin(np.abs(distances - dist))] *)
Definition nearest_index (distances : list Q) (dist : Q) : nat :=
  np_argmin (map (fun d => Qabs (d - dist)) distances).



(** ** [generate_camera_waypoints] *)

Inductive CameraStyle : Type := close_comparison | medium_view | wide_view.

Inductive FocusPoint : Type := leader | follower.

Record Waypoint : Type := mkWaypoint {
  waypoint_distance : Q;
  waypoint_delta : Q;
  camera_style : CameraStyle;
  camera_distance : Q;
  focus_point : FocusPoint
}.

(** [np.linspace(0, stop, num, dtype=int)]: the points of the float
    [linspace] rounded down to integers. *)
Definition linspace_int (stop : Z) (num : nat) : list Z :=
  match num with
  | O => []
  | S n => map Qfloor (np_linspace 0 (inject_Z stop) n)
  end.

(** The three-way choice on [delta_magnitude]:
    [(camera_style, camera_distance)]. *)
Definition camera_for (delta_magnitude : Q) : CameraStyle * Q :=
  if Qlt_bool (5 # 10) delta_magnitude then (close_comparison, 15)
  else if Qlt_bool (2 # 10) delta_magnitude then (medium_view, 25)
  else (wide_view, 40).

Definition waypoint_at (distances delta : list Q) (idx : Z)
  : result Waypoint :=
  d <- py_index delta idx ;;
  let camera := camera_for (Qabs d) in
  x <- py_index distances idx ;;
  Ok (mkWaypoint x d (fst camera) (snd camera)
                 (if Qlt_bool d 0 then leader else follower)).

Definition generate_camera_waypoints (distances delta : list Q)
    (num_waypoints : nat) : result (list Waypoint) :=
  let indices :=
    linspace_int (Z.of_nat (length distances) - 1) num_waypoints in
  collect (waypoint_at distances delta) indices.

(** ** [identify_speed_zones] *)

(** One row of the summary frame built by [calculate_delta]. *)
Record SummaryRow : Type := mkSummary {
  Summary_Distance : Q;
  Speed_Driver1 : Q;
  Speed_Driver2 : Q;
  Delta : Q
}.

Inductive ZoneType : Type := high_speed | low_speed | medium_speed.

Definition ZoneType_eqb (a b : ZoneType) : bool :=
  match a, b with
  | high_speed, high_speed => true
  | low_speed, low_speed => true
  | medium_speed, medium_speed => true
  | _, _ => false
  end.

(** A zone still open, [current_zone] before its ["end_distance"] is
    set. *)
Record OpenZone : Type := mkOpen {
  open_type : ZoneType;
  open_start : Q;
  open_avg_speed : Q
}.

Record SpeedZone : Type := mkZone {
  zone_type : ZoneType;
  start_distance : Q;
  avg_speed : Q;
  end_distance : Q
}.

Definition close_zone (z : OpenZone) (end_distance : Q) : SpeedZone :=
  mkZone (open_type z) (open_start z) (open_avg_speed z) end_distance.

(** [avg_speed = (speed1 + speed2) / 2] *)
Definition summary_avg_speed (summary : list SummaryRow) : list Q :=
  map2 (fun a b => (a + b) / 2)
       (map Speed_Driver1 summary) (map Speed_Driver2 summary).

Definition classify_speed (high_speed_threshold low_speed_threshold : Q)
    (speed : Q) : ZoneType :=
  if Qlt_bool high_speed_threshold speed then high_speed
  else if Qlt_bool speed low_speed_threshold then low_speed
  else medium_speed.

(** The body of the [enumerate(avg_speed)] loop on the state
    [(zones, current_zone)].  The indices [i] and [i - 1] are within
    [distances], a column of the same frame as [avg_speed]. *)
Definition zone_step (high low : Q) (distances : list Q)
    (state : list SpeedZone * option OpenZone) (entry : nat * Q)
  : list SpeedZone * option OpenZone :=
  let (i, speed) := entry in
  let this_type := classify_speed high low speed in
  match snd state with
  | None => (fst state, Some (mkOpen this_type (nth i distances 0) speed))
  | Some current =>
      if ZoneType_eqb (open_type current) this_type then state
      else (fst state ++ [close_zone current (nth (pred i) distances 0)],
            Some (mkOpen this_type (nth i distances 0) speed))
  end.

(** The zones of a loop state, the open one closed at [end_distance]. *)
Definition zones_of (state : list SpeedZone * option OpenZone)
    (end_distance : Q) : list SpeedZone :=
  fst state ++ match snd state with
               | Some current => [close_zone current end_distance]
               | None => []
               end.

Section SpeedZones.

(** [np.percentile] is NumPy's: the zone loop is modelled for whatever
    two thresholds it returns, and an exception it raises propagates. *)
Variable percentile : list Q -> Q -> result Q.

Definition identify_speed_zones (summary : list SummaryRow)
  : result (list SpeedZone) :=
  let distances := map Summary_Distance summary in
  let avg := summary_avg_speed summary in
  high_speed_threshold <- percentile avg 75 ;;
  low_speed_threshold <- percentile avg 25 ;;
  let final :=
    fold_left (zone_step high_speed_threshold low_speed_threshold distances)
              (combine (seq 0 (length avg)) avg) ([], None) in
  Ok (zones_of final (last_of distances)).

End SpeedZones.

(** Two consecutive zones of different types. *)
Definition zone_types_differ (a b : SpeedZone) : Prop :=
  zone_type a <> zone_type b.

(** The speed stored with a zone falls in the zone's class. *)
Definition zone_typed (high low : Q) (z : SpeedZone) : Prop :=
  zone_type z = classify_speed high low (avg_speed z).

(** What the zone loop keeps true once a zone is open. *)
Definition zone_invariant (high low first_distance : Q)
    (state : list SpeedZone * option OpenZone) : Prop :=
  (exists current, snd state = Some current)
  /\ forall e,
      Sorted zone_types_differ (zones_of state e)
      /\ Forall (zone_typed high low) (zones_of state e)
      /\ exists z, hd_error (zones_of state e) = Some z
                   /\ start_distance z = first_distance.

(** Stand-in thresholds for exercising the statements: 150 for the 75th
    percentile, 100 for the 25th. *)
Definition fixed_thresholds (a : list Q) (q : Q) : result Q :=
  Ok (if Qeq_bool q 75 then 150 else 100).

Definition lap_summary : list SummaryRow :=
  [mkSummary 0 90 100 0; mkSummary 5 160 170 (1 # 10);
   mkSummary 10 165 175 (2 # 10); mkSummary 15 120 130 (1 # 10)].

(** ** [find_overtaking_zones] *)

(** [np.gradient(f, x)] for a 1-d array [f] over coordinates [x], with
    the default [edge_order=1]: one-sided differences at both ends,
    second-order central differences inside, in NumPy's uniform form when
    every spacing equals the first one.  Coordinates of another length
    raise [ValueError]; with fewer than two coordinates the spacing array
    is empty and reading its first entry raises [IndexError].  The
    spacings of a strictly increasing [x] are non-zero, which is what the
    quotients assume. *)
Definition np_gradient (f x : list Q) : result (list Q) :=
  if negb (Nat.eqb (length x) (length f)) then Raise ValueError
  else
    match np_diff x with
    | [] => Raise IndexError
    | d0 :: _ =>
        let diffx := np_diff x in
        let n := length f in
        let uniform := forallb (fun d => Qeq_bool d d0) diffx in
        let interior i :=
          if uniform
          then (nth (S i) f 0 - nth (pred i) f 0) / (2 * d0)
          else
            let dx1 := nth (pred i) diffx 0 in
            let dx2 := nth i diffx 0 in
            let a := - dx2 / (dx1 * (dx1 + dx2)) in
            let b := (dx2 - dx1) / (dx1 * dx2) in
            let c := dx1 / (dx2 * (dx1 + dx2)) in
            a * nth (pred i) f 0 + b * nth i f 0 + c * nth (S i) f 0 in
        let dx_0 := d0 in
        let dx_n := if uniform then d0 else last diffx 0 in
        Ok (map (fun i =>
                   if Nat.eqb i 0 then (nth 1 f 0 - nth 0 f 0) / dx_0
                   else if Nat.eqb i (pred n)
                        then (nth (pred n) f 0 - nth (pred (pred n)) f 0)
                             / dx_n
                        else interior i)
                (seq 0 n))
    end.

(** [np.max(a)]: [ValueError] on an empty array. *)
Definition np_max (a : list Q) : result Q :=
  match a with
  | [] => Raise ValueError
  | x :: tl => Ok (fold_left py_max tl x)
  end.

Record OvertakingZone : Type := mkOvertaking {
  zone_start_distance : Q;
  zone_end_distance : Q;
  delta_change : Q;
  intensity : Q
}.

(** [np.abs(delta_gradient) > threshold / 1000] at one sample. *)
Definition is_significant (threshold : Q) (g : Q) : bool :=
  Qlt_bool (threshold / 1000) (Qabs g).

(** [delta_gradient[np.logical_and(distances >= zone_start,
    distances <= distances[i])]], in absolute value. *)
Definition masked_gradient (distances delta_gradient : list Q)
    (zone_start zone_end : Q) : list Q :=
  map (fun p => Qabs (snd p))
      (filter (fun p => Qle_bool zone_start (fst p)
                        && Qle_bool (fst p) zone_end)
              (combine distances delta_gradient)).

(** The dictionary appended when a zone closes at index [i]. *)
Definition closed_zone (delta distances delta_gradient : list Q)
    (zone_start : Q) (i : nat) : result OvertakingZone :=
  let zone_end := nth i distances 0 in
  let start_idx := nearest_index distances zone_start in
  peak <- np_max (masked_gradient distances delta_gradient
                                  zone_start zone_end) ;;
  Ok (mkOvertaking zone_start zone_end
                   (nth i delta 0 - nth start_idx delta 0) peak).

(** The body of the [enumerate(significant_changes)] loop on the state
    [(overtaking_zones, in_zone, zone_start)]; [zone_start] is only read
    while [in_zone] holds.  The index [i] is within [distances] and
    [delta], which [np.gradient] has checked to have one length. *)
Definition overtaking_step (delta distances delta_gradient : list Q)
    (state : result (list OvertakingZone * bool * Q)) (entry : nat * bool)
  : result (list OvertakingZone * bool * Q) :=
  st <- state ;;
  let '(zones, in_zone, zone_start) := st in
  let (i, significant) := entry in
  if (significant && negb in_zone)%bool
  then Ok (zones, true, nth i distances 0)
  else if (negb significant && in_zone)%bool
       then
         zone <- closed_zone delta distances delta_gradient zone_start i ;;
         Ok (zones ++ [zone], false, zone_start)
       else Ok st.

Definition find_overtaking_zones (delta distances : list Q) (threshold : Q)
  : result (list OvertakingZone) :=
  delta_gradient <- np_gradient delta distances ;;
  let significant_changes := map (is_significant threshold) delta_gradient in
  final <- fold_left (overtaking_step delta distances delta_gradient)
                     (combine (seq 0 (length significant_changes))
                              significant_changes)
                     (Ok ([], false, 0)) ;;
  Ok (fst (fst final)).

(** * [F1PlotStyle.get_driver_color] of [visualization.py] *)

Module F1PlotStyle.
Import Stdlib.Strings.String.
Local Open Scope string_scope.

Definition TEAM_COLORS : list (string * string) :=
  [("VER", "#1E41FF"); ("PER", "#1E41FF");
   ("HAM", "#00D2BE"); ("RUS", "#00D2BE");
   ("LEC", "#DC143C"); ("SAI", "#DC143C");
   ("NOR", "#FF8700"); ("PIA", "#FF8700");
   ("ALO", "#006F62"); ("STR", "#006F62")].

Definition DEFAULT_COLORS : list string :=
  ["#4A9EFF"; "#00D4AA"; "#FF6B6B"; "#4ECDC4"; "#45B7D1"].

(** [key in d] and [d[key]] on a dictionary written as its list of
    items. *)
Fixpoint lookup (key : string) (d : list (string * string)) : option string :=
  match d with
  | [] => None
  | (k, v) :: rest => if String.eqb key k then Some v else lookup key rest
  end.

(** [index % len(DEFAULT_COLORS)] is Python's modulo, whose sign follows
    the divisor; the list access raises [IndexError] out of range. *)
Definition get_driver_color (driver : string) (index : Z) : result string :=
  match lookup driver TEAM_COLORS with
  | Some color => Ok color
  | None =>
      let i := (index mod Z.of_nat (List.length DEFAULT_COLORS))%Z in
      match nth_error DEFAULT_COLORS (Z.to_nat i) with
      | Some color => Ok color
      | None => Raise IndexError
      end
  end.

End F1PlotStyle.

(** A short distance array and a delta array over it, for the export
    helpers. *)
Definition lap_distances : list Q := [0; 120; 260; 400].

Definition lap_delta : list Q := [0; 1 # 10; - (2 # 10); 1].


(** A car standing at 40 m. *)
Definition parked_trace : DataFrame unit :=
  [raw_row 40 0; raw_row 40 10; raw_row 40 0].

(** A reported overtaking zone that is well formed for the arrays it
    was computed from: it runs between two samples, the later one strictly
    further along, its [delta_change] is the delta difference between
    them, and its [intensity] is above the significance level. *)
Definition overtaking_zone_ok (delta distances : list Q) (threshold : Q)
    (z : OvertakingZone) : Prop :=
  zone_start_distance z < zone_end_distance z
  /\ threshold / 1000 < intensity z
  /\ exists k i,
      (k < i < length distances)%nat
      /\ zone_start_distance z = nth k distances 0
      /\ zone_end_distance z = nth i distances 0
      /\ delta_change z = nth i delta 0 - nth k delta 0.

(** A delta that rises for a while and then stays level, and one that
    rises all the way. *)
Definition step_delta : list Q := [0; 0; 1 # 10; 3 # 10; 3 # 10; 3 # 10].

Definition ramp_delta : list Q := [0; 1; 2; 3; 4; 5].

Definition six_distances : list Q := [0; 100; 200; 300; 400; 500].

(** * Properties *)

(** ** Arithmetic and list helpers *)

Lemma Qlt_bool_iff (x y : Q) : Qlt_bool x y = true <-> x < y.
Proof.
  unfold Qlt_bool. rewrite Qlt_alt.
  destruct (x ?= y); split; intro H; congruence.
Qed.

Lemma Qlt_bool_false_iff (x y : Q) : Qlt_bool x y = false <-> y <= x.
Proof.
  split; intro H.
  - apply Qnot_lt_le. intro Hlt. apply Qlt_bool_iff in Hlt. congruence.
  - destruct (Qlt_bool x y) eqn:E; [|reflexivity].
    apply Qlt_bool_iff in E. lra.
Qed.

Lemma Qdiv_pos (a b : Q) : 0 < a -> 0 < b -> 0 < a / b.
Proof.
  intros Ha Hb. unfold Qdiv.
  apply Qmult_lt_0_compat; [assumption|].
  apply Qinv_lt_0_compat; assumption.
Qed.

Lemma Qdiv_nonneg (a b : Q) : 0 <= a -> 0 < b -> 0 <= a / b.
Proof.
  intros Ha Hb. unfold Qdiv.
  apply Qmult_le_0_compat; [assumption|].
  apply Qlt_le_weak, Qinv_lt_0_compat; assumption.
Qed.

Lemma py_max_lower (a b : Q) : b <= py_max a b.
Proof.
  unfold py_max. destruct (Qlt_bool a b) eqn:E.
  - lra.
  - apply Qlt_bool_false_iff in E. exact E.
Qed.

Lemma map2_removelast_tl {A B : Type} (f : A -> A -> B) (l : list A) :
  map2 f (removelast l) (tl l) = adjacent f l.
Proof.
  induction l as [|a [|b l'] IH]; try reflexivity.
  change (removelast (a :: b :: l')) with (a :: removelast (b :: l')).
  cbn [tl map2 adjacent]. f_equal. exact IH.
Qed.

Lemma map2_tl_removelast {A B : Type} (f : A -> A -> B) (l : list A) :
  map2 f (tl l) (removelast l) = adjacent (fun lo hi => f hi lo) l.
Proof.
  induction l as [|a [|b l'] IH]; try reflexivity.
  change (removelast (a :: b :: l')) with (a :: removelast (b :: l')).
  cbn [tl map2 adjacent]. f_equal. exact IH.
Qed.

Lemma adjacent_map {A B C : Type} (g : A -> B) (f : B -> B -> C)
    (l : list A) :
  adjacent f (map g l) = adjacent (fun a b => f (g a) (g b)) l.
Proof.
  induction l as [|a [|b l'] IH]; try reflexivity.
  cbn [map adjacent] in *. f_equal. exact IH.
Qed.

Lemma map_adjacent {A B C : Type} (g : B -> C) (f : A -> A -> B)
    (l : list A) :
  map g (adjacent f l) = adjacent (fun a b => g (f a b)) l.
Proof.
  induction l as [|a [|b l'] IH]; try reflexivity.
  cbn [map adjacent] in *. f_equal. exact IH.
Qed.

Lemma map2_adjacent {A B C D : Type} (h : B -> C -> D)
    (f : A -> A -> B) (g : A -> A -> C) (l : list A) :
  map2 h (adjacent f l) (adjacent g l)
  = adjacent (fun a b => h (f a b) (g a b)) l.
Proof.
  induction l as [|a [|b l'] IH]; try reflexivity.
  cbn [map2 adjacent] in *. f_equal. exact IH.
Qed.

Lemma adjacent_length {A B : Type} (f : A -> A -> B) (l : list A) :
  length (adjacent f l) = pred (length l).
Proof.
  induction l as [|a [|b l'] IH]; try reflexivity.
  cbn [adjacent length] in *. rewrite IH. reflexivity.
Qed.

Lemma np_diff_adjacent (a : list Q) :
  np_diff a = adjacent (fun lo hi => hi - lo) a.
Proof. unfold np_diff. apply map2_tl_removelast. Qed.

Lemma running_length (acc : Q) (l : list Q) :
  length (running acc l) = length l.
Proof.
  revert acc. induction l as [|x l IH]; intro acc; cbn; [reflexivity|].
  rewrite IH. reflexivity.
Qed.

Lemma map2_length_same {A B C : Type} (f : A -> B -> C)
    (l : list A) (l' : list B) :
  length l = length l' -> length (map2 f l l') = length l.
Proof.
  revert l'. induction l as [|a l IH]; intros [|b l'] H; cbn in *;
    try reflexivity; try discriminate.
  f_equal. apply IH. congruence.
Qed.

Lemma last_map_nonempty (f : Q -> Q) (l : list Q) (d d' : Q) :
  l <> [] -> last (map f l) d = f (last l d').
Proof.
  induction l as [|a [|b l'] IH]; intro H; [congruence|reflexivity|].
  change (map f (a :: b :: l')) with (f a :: map f (b :: l')).
  change (last (f a :: map f (b :: l')) d) with (last (map f (b :: l')) d).
  change (last (a :: b :: l') d') with (last (b :: l') d').
  apply IH. discriminate.
Qed.

(** ** [calculate_custom_time]: the segment view *)

Section CustomTimeFacts.
Context {T : Type}.

Lemma avg_speeds_adjacent (tel : DataFrame T) :
  avg_speeds tel
  = adjacent (fun r0 r1 =>
                zero_guard ((kmh_to_ms (Speed r0) + kmh_to_ms (Speed r1)) / 2))
             tel.
Proof.
  unfold avg_speeds, avg_speeds_raw, speeds_ms.
  rewrite map2_removelast_tl, map_map, adjacent_map, map_adjacent.
  reflexivity.
Qed.

Lemma time_differentials_adjacent (tel : DataFrame T) :
  time_differentials tel = adjacent segment_dt tel.
Proof.
  unfold time_differentials.
  rewrite avg_speeds_adjacent, np_diff_adjacent, adjacent_map.
  rewrite map2_adjacent. reflexivity.
Qed.

Lemma custom_time_length (tel : DataFrame T) :
  length (custom_time tel) = S (pred (length tel)).
Proof.
  unfold custom_time, np_cumsum.
  cbn [length]. rewrite running_length, time_differentials_adjacent.
  rewrite adjacent_length. reflexivity.
Qed.

Lemma kmh_to_ms_nonneg (v : Q) : 0 <= v -> 0 <= kmh_to_ms v.
Proof. intro H. unfold kmh_to_ms. apply Qdiv_nonneg; [exact H|reflexivity]. Qed.

Lemma zero_guard_nonzero (a : Q) : ~ zero_guard a == 0.
Proof.
  unfold zero_guard. destruct (Qeq_bool a 0) eqn:E.
  - intro H. discriminate H.
  - apply Qeq_bool_neq in E. exact E.
Qed.

Lemma zero_guard_pos (a : Q) : 0 <= a -> 0 < zero_guard a.
Proof.
  intro Ha. pose proof (zero_guard_nonzero a) as Hnz.
  unfold zero_guard in *. destruct (Qeq_bool a 0) eqn:E.
  - reflexivity.
  - lra.
Qed.

End CustomTimeFacts.

Section CustomTimeTheorems.
Context {T : Type}.

Lemma set_time_columns (tel : DataFrame T) (values : list Q) :
  length values = length tel ->
  exists res, set_time tel values = Ok res
              /\ map Distance res = map Distance tel
              /\ map Speed res = map Speed tel
              /\ map Time res = values.
Proof.
  intro Hlen. unfold set_time.
  rewrite (proj2 (Nat.eqb_eq _ _) Hlen).
  eexists. split; [reflexivity|].
  revert values Hlen.
  induction tel as [|r tel IH]; intros [|v values] Hlen; cbn in *;
    try discriminate; [repeat split|].
  destruct (IH values) as (Hd & Hs & Ht); [congruence|].
  rewrite Hd, Hs, Ht. repeat split.
Qed.

Lemma avg_speeds_raw_nonneg (tel : DataFrame T) :
  nonneg_speeds tel -> Forall (fun a => 0 <= a) (avg_speeds_raw tel).
Proof.
  unfold avg_speeds_raw, speeds_ms.
  rewrite map2_removelast_tl, map_map, adjacent_map.
  induction tel as [|r0 [|r1 tel] IH]; intro H; cbn [adjacent];
    try constructor.
  - inversion H as [|? ? H0 H']; subst. inversion H' as [|? ? H1 _]; subst.
    apply Qdiv_nonneg; [|reflexivity].
    pose proof (kmh_to_ms_nonneg _ H0). pose proof (kmh_to_ms_nonneg _ H1).
    lra.
  - apply IH. inversion H; assumption.
Qed.

Lemma segment_dt_pos (tel : DataFrame T) :
  increasing_distances tel -> nonneg_speeds tel ->
  Forall (fun dt => 0 < dt) (adjacent segment_dt tel).
Proof.
  unfold increasing_distances.
  induction tel as [|r0 [|r1 tel] IH]; intros Hd Hs; cbn [adjacent];
    try constructor.
  - inversion Hd as [|? ? _ Hhd]; subst. inversion Hhd as [|? ? Hlt]; subst.
    inversion Hs as [|? ? H0 H']; subst. inversion H' as [|? ? H1 _]; subst.
    unfold segment_dt. apply Qdiv_pos; [lra|].
    apply zero_guard_pos. apply Qdiv_nonneg; [|reflexivity].
    pose proof (kmh_to_ms_nonneg _ H0). pose proof (kmh_to_ms_nonneg _ H1).
    lra.
  - apply IH.
    + inversion Hd; assumption.
    + inversion Hs; assumption.
Qed.

Lemma running_sorted (l : list Q) :
  Forall (fun x => 0 <= x) l ->
  forall acc, Sorted Qle (acc :: running acc l).
Proof.
  induction 1 as [|x l Hx _ IH]; intro acc; cbn.
  - repeat constructor.
  - constructor; [apply IH|]. constructor. lra.
Qed.

Lemma last_running_gt (l : list Q) :
  Forall (fun x => 0 < x) l -> l <> [] ->
  forall acc, acc < last (running acc l) 0.
Proof.
  induction 1 as [|x l Hx Hl IH]; intros Hne acc; [congruence|].
  destruct l as [|y l].
  - cbn. lra.
  - change (last (running acc (x :: y :: l)) 0)
      with (last (running (acc + x) (y :: l)) 0).
    assert (acc + x < last (running (acc + x) (y :: l)) 0) as H
      by (apply IH; discriminate).
    lra.
Qed.

Lemma scale_sorted (k : Q) (l : list Q) :
  0 <= k -> Sorted Qle l -> Sorted Qle (map (fun t => t * k) l).
Proof.
  intros Hk. induction 1 as [|a l Hs IH Hhd]; cbn; constructor; auto.
  destruct Hhd as [|b l Hab]; cbn; constructor.
  apply Qmult_le_compat_r; assumption.
Qed.

Lemma custom_time_last_pos (tel : DataFrame T) :
  valid_trace tel -> 0 < last_of (custom_time tel).
Proof.
  intros (Hlen & Hd & Hs).
  unfold custom_time, np_cumsum, last_of.
  rewrite time_differentials_adjacent.
  pose proof (segment_dt_pos tel Hd Hs) as Hpos.
  assert (adjacent segment_dt tel <> []) as Hne.
  { intro E. apply (f_equal (@length Q)) in E.
    rewrite adjacent_length in E. cbn in E. lia. }
  destruct (adjacent segment_dt tel) as [|dt dts] eqn:E; [congruence|].
  change (last (0 :: running 0 (dt :: dts)) 0)
    with (last (running 0 (dt :: dts)) 0).
  apply last_running_gt; assumption.
Qed.

(** C2.  For every trace with at least two samples, strictly increasing
    distances and non-negative speeds, and every [real_laptime],
    [calculate_custom_time] returns a frame with the input's [Distance]
    and [Speed] columns whose [Time] column starts at 0 and ends at
    [real_laptime]; the raw integrated time of such a trace is positive;
    and the [Time] column is non-decreasing for a lap time that is not
    negative (the data model has [real_lap_time > 0]). *)
Theorem custom_time_contract (tel : DataFrame T) (real_laptime : Q) :
  valid_trace tel ->
  0 < last_of (custom_time tel)
  /\ exists res,
      calculate_custom_time tel real_laptime = Ok res
      /\ length res = length tel
      /\ map Distance res = map Distance tel
      /\ map Speed res = map Speed tel
      /\ nth 0 (map Time res) 1 == 0
      /\ last (map Time res) 0 == real_laptime
      /\ Qabs (last (map Time res) 0 - real_laptime) <= 1 # 1000000
      /\ (0 <= real_laptime -> Sorted Qle (map Time res)).
Proof.
  intro Hv. pose proof (custom_time_last_pos tel Hv) as Hpos.
  split; [exact Hpos|].
  destruct Hv as (Hlen & Hd & Hs).
  unfold calculate_custom_time.
  assert (length (scaled_time tel real_laptime) = length tel) as Hl.
  { unfold scaled_time. destruct (Qlt_bool 0 (last_of (custom_time tel)));
      rewrite ?length_map, custom_time_length; lia. }
  destruct (set_time_columns tel _ Hl) as (res & Hres & HD & HS & HT).
  exists res. split; [exact Hres|].
  assert (length res = length tel) as Hlr.
  { rewrite <- (length_map Distance res), HD, length_map. reflexivity. }
  split; [exact Hlr|]. split; [exact HD|]. split; [exact HS|].
  rewrite HT. unfold scaled_time.
  rewrite (proj2 (Qlt_bool_iff _ _) Hpos).
  set (L := last_of (custom_time tel)) in *.
  assert (last (map (fun t => t * (real_laptime / L)) (custom_time tel)) 0
          == real_laptime) as Hlast.
  { rewrite (last_map_nonempty _ (custom_time tel) 0 0).
    - fold (last_of (custom_time tel)). fold L. field. lra.
    - unfold custom_time, np_cumsum. discriminate. }
  split; [|split; [exact Hlast|split]].
  - unfold custom_time, np_cumsum. cbn [map nth]. ring.
  - rewrite Hlast. setoid_replace (real_laptime - real_laptime) with 0 by ring.
    discriminate.
  - intro Hreal. apply scale_sorted.
    + apply Qdiv_nonneg; assumption.
    + unfold custom_time, np_cumsum. apply running_sorted.
      rewrite time_differentials_adjacent.
      eapply Forall_impl; [|apply segment_dt_pos; assumption].
      cbn. intros a Ha. lra.
Qed.

(** C7 (as the code has it).  For every trace with non-negative speeds,
    each divisor of [dt = ds / avg_speeds] is strictly positive, hence
    never zero: it is [0.001] exactly where the segment's average speed is
    [0] and the average speed itself everywhere else. *)
Theorem divisor_never_zero (tel : DataFrame T) :
  nonneg_speeds tel ->
  Forall (fun d => 0 < d) (avg_speeds tel)
  /\ Forall2 (fun a d => (a == 0 -> d = 1 # 1000) /\ (~ a == 0 -> d = a))
             (avg_speeds_raw tel) (avg_speeds tel).
Proof.
  intro Hs. pose proof (avg_speeds_raw_nonneg tel Hs) as Hraw.
  unfold avg_speeds. split.
  - induction Hraw as [|a l Ha _ IH]; cbn; constructor; auto.
    apply zero_guard_pos; assumption.
  - clear Hraw. induction (avg_speeds_raw tel) as [|a l IH]; cbn;
      constructor; auto.
    unfold zero_guard. destruct (Qeq_bool a 0) eqn:E; split; intro H;
      try reflexivity.
    + apply Qeq_bool_iff in E. contradiction.
    + apply Qeq_bool_neq in E. contradiction.
Qed.

(** C6 (as the code has it).  For a trace of exactly one sample
    [calculate_custom_time] raises nothing: it returns the sample with
    [Time = 0], for every [real_laptime]. *)
Theorem single_sample_returns (r : Row T) (real_laptime : Q) :
  calculate_custom_time [r] real_laptime
  = Ok [mkRow (Distance r) (Speed r) 0].
Proof. reflexivity. Qed.

End CustomTimeTheorems.

Lemma sample_trace_valid : valid_trace sample_trace.
Proof.
  split; [cbn; lia|]. split.
  - unfold increasing_distances. cbn. repeat constructor.
  - unfold nonneg_speeds. repeat constructor; cbn; discriminate.
Qed.

Lemma custom_time_contract_witness :
  valid_trace sample_trace
  /\ exists res,
      calculate_custom_time sample_trace 90 = Ok res
      /\ nth 0 (map Time res) 1 == 0
      /\ last (map Time res) 0 == 90
      /\ Sorted Qle (map Time res).
Proof.
  split; [exact sample_trace_valid|].
  destruct (custom_time_contract sample_trace 90 sample_trace_valid)
    as (_ & res & H & _ & _ & _ & H0 & Hl & _ & Hs).
  exists res. repeat split; auto. apply Hs. discriminate.
Defined.

Lemma divisor_never_zero_witness :
  nonneg_speeds crawl_trace
  /\ Forall (fun d => 0 < d) (avg_speeds crawl_trace).
Proof.
  assert (nonneg_speeds crawl_trace) as H
    by (repeat constructor; cbn; discriminate).
  split; [exact H|]. exact (proj1 (divisor_never_zero crawl_trace H)).
Defined.

(** C7, counterexample: at 0.0018 km/h the divisor is 0.0005 m/s, below
    the claimed floor of 0.001 m/s, although the speeds are non-negative. *)
Lemma divisor_below_floor :
  nonneg_speeds crawl_trace
  /\ ~ Forall (fun d => 1 # 1000 <= d) (avg_speeds crawl_trace).
Proof.
  split; [repeat constructor; cbn; discriminate|].
  intro H. inversion H as [|d l Hd _]; subst.
  vm_compute in Hd. apply Hd. reflexivity.
Qed.

(** C6, counterexample: a one-sample trace is not rejected. *)
Lemma single_sample_not_rejected :
  ~ exists e, calculate_custom_time [raw_row 0 100] 90 = Raise e.
Proof. intros [e H]. discriminate H. Qed.

(** ** [calculate_integration_delta] *)

Section IntegrationFacts.
Context {T : Type}.

Lemma delta_loop_extends (ds ref_speed slow_speed : list Q) (idx : list nat) :
  forall acc raw,
    delta_loop ds ref_speed slow_speed idx acc = Ok raw ->
    exists ext, raw = acc ++ ext /\ length ext = length idx.
Proof.
  induction idx as [|i idx IH]; intros acc raw H; cbn in H.
  - injection H as <-. exists []. rewrite app_nil_r. split; reflexivity.
  - destruct (segment_delta ds ref_speed slow_speed i) as [d|]; [|discriminate].
    destruct (IH _ _ H) as (ext & -> & Hlen).
    exists ((last_of acc + d) :: ext). rewrite <- app_assoc. cbn.
    split; [reflexivity|]. rewrite Hlen. reflexivity.
Qed.

Lemma delta_loop_total (ds ref_speed slow_speed : list Q) (idx : list nat) :
  (forall i, In i idx ->
             exists d, segment_delta ds ref_speed slow_speed i = Some d) ->
  forall acc, exists raw, delta_loop ds ref_speed slow_speed idx acc = Ok raw.
Proof.
  induction idx as [|i idx IH]; intros Hseg acc; cbn.
  - eexists; reflexivity.
  - destruct (Hseg i (or_introl eq_refl)) as [d ->].
    apply IH. intros j Hj. apply Hseg. right. exact Hj.
Qed.

Lemma segment_delta_defined (ds ref_speed slow_speed : list Q) (i : nat) :
  (i < length ds)%nat -> (S i < length ref_speed)%nat ->
  (S i < length slow_speed)%nat ->
  exists d, segment_delta ds ref_speed slow_speed i = Some d.
Proof.
  intros Hd Hr Hs. unfold segment_delta.
  destruct (nth_error ref_speed i) eqn:E1;
    [|apply nth_error_None in E1; lia].
  destruct (nth_error ref_speed (S i)) eqn:E2;
    [|apply nth_error_None in E2; lia].
  destruct (nth_error slow_speed i) eqn:E3;
    [|apply nth_error_None in E3; lia].
  destruct (nth_error slow_speed (S i)) eqn:E4;
    [|apply nth_error_None in E4; lia].
  destruct (nth_error ds i) eqn:E5;
    [|apply nth_error_None in E5; lia].
  eexists; reflexivity.
Qed.

Lemma np_diff_length (a : list Q) : length (np_diff a) = pred (length a).
Proof. rewrite np_diff_adjacent. apply adjacent_length. Qed.

Lemma assign_roles_lengths (speed1 speed2 : list Q) (t1 t2 : Q) :
  (length speed1 <= length speed2)%nat ->
  (length speed1 <= length (fst (assign_roles speed1 speed2 t1 t2)))%nat
  /\ (length speed1 <= length (snd (assign_roles speed1 speed2 t1 t2)))%nat.
Proof.
  intro H. unfold assign_roles. destruct (Qlt_bool t1 t2); cbn; lia.
Qed.

Lemma delta_raw_total (tel1 tel2 : DataFrame T) (t1 t2 : Q) :
  (length tel1 <= length tel2)%nat ->
  exists raw, delta_raw tel1 tel2 t1 t2 = Ok raw.
Proof.
  intro Hlen. unfold delta_raw. apply delta_loop_total.
  intros i Hi. apply in_seq in Hi. rewrite np_diff_length, length_map in Hi.
  destruct (assign_roles_lengths (map kmh_to_ms (map Speed tel1))
              (map kmh_to_ms (map Speed tel2)) t1 t2) as [Hr Hs].
  { rewrite !length_map. exact Hlen. }
  rewrite !length_map in Hr, Hs.
  apply segment_delta_defined.
  - rewrite np_diff_length, length_map. lia.
  - lia.
  - lia.
Qed.

Lemma delta_raw_shape (tel1 tel2 : DataFrame T) (t1 t2 : Q) (raw : list Q) :
  delta_raw tel1 tel2 t1 t2 = Ok raw ->
  exists ext, raw = 0 :: ext /\ length ext = pred (length tel1).
Proof.
  intro H. unfold delta_raw in H.
  destruct (delta_loop_extends _ _ _ _ _ _ H) as (ext & -> & Hlen).
  exists ext. split; [reflexivity|].
  rewrite Hlen, length_seq, np_diff_length, length_map. reflexivity.
Qed.

Lemma rescale_ok (raw : list Q) (t1 t2 : Q) :
  ~ last_of raw == 0 ->
  rescale raw t1 t2
  = Ok (map (fun d => d * (Qabs (t1 - t2) / Qabs (last_of raw))) raw).
Proof.
  intro Hnz. unfold rescale.
  assert (0 < Qabs (last_of raw)) as Hpos.
  { pose proof (Qabs_nonneg (last_of raw)) as Hge.
    destruct (Qlt_le_dec 0 (Qabs (last_of raw))) as [Hlt|Hle]; [exact Hlt|].
    exfalso. apply Hnz.
    assert (Qabs (last_of raw) == 0) as Hz by lra.
    revert Hz. apply Qabs_case; intros; lra. }
  rewrite (proj2 (Qlt_bool_iff _ _) Hpos). reflexivity.
Qed.

Lemma rescale_zero (raw : list Q) (t1 t2 : Q) :
  last_of raw == 0 -> rescale raw t1 t2 = Raise UnboundLocalError.
Proof.
  intro Hz. unfold rescale.
  assert (Qlt_bool 0 (Qabs (last_of raw)) = false) as ->; [|reflexivity].
  apply Qlt_bool_false_iff. rewrite Hz. discriminate.
Qed.

End IntegrationFacts.

Section IntegrationTheorems.
Context {T : Type}.

Lemma last_as_nth (l : list Q) : last l 0 = nth (pred (length l)) l 0.
Proof.
  induction l as [|a [|b l'] IH]; try reflexivity.
  change (last (a :: b :: l') 0) with (last (b :: l') 0). rewrite IH.
  reflexivity.
Qed.

Lemma delta_loop_increments (ds ref_speed slow_speed : list Q)
    (idx : list nat) :
  forall acc raw,
    acc <> [] ->
    delta_loop ds ref_speed slow_speed idx acc = Ok raw ->
    forall k, (k < length idx)%nat ->
    exists d,
      segment_delta ds ref_speed slow_speed (nth k idx 0%nat) = Some d
      /\ nth (length acc + k) raw 0
         = nth (pred (length acc + k)) raw 0 + d.
Proof.
  induction idx as [|i idx IH]; intros acc raw Hne H k Hk; cbn in Hk;
    [lia|].
  cbn [delta_loop] in H.
  destruct (segment_delta ds ref_speed slow_speed i) as [d0|] eqn:E;
    [|discriminate].
  destruct k as [|k].
  - exists d0. split; [exact E|].
    destruct (delta_loop_extends _ _ _ _ _ _ H) as (ext & -> & _).
    rewrite Nat.add_0_r, <- app_assoc.
    rewrite app_nth2 by lia. rewrite Nat.sub_diag. cbn [app nth].
    rewrite app_nth1 by (destruct acc; [congruence|cbn; lia]).
    unfold last_of. rewrite last_as_nth. reflexivity.
  - destruct (IH (acc ++ [last_of acc + d0]) raw) with (k := k)
      as (d & Hd & Hn); [destruct acc; discriminate|exact H|lia|].
    exists d. split; [exact Hd|].
    rewrite length_app in Hn. cbn [length] in Hn.
    replace (length acc + S k)%nat with (length acc + 1 + k)%nat by lia.
    exact Hn.
Qed.

Lemma segment_delta_roles (ds ref_speed slow_speed : list Q) (i : nat)
    (d : Q) :
  segment_delta ds ref_speed slow_speed i = Some d ->
  exists dt_slow dt_ref,
    trace_dt ds slow_speed i = Some dt_slow
    /\ trace_dt ds ref_speed i = Some dt_ref
    /\ d = dt_slow - dt_ref.
Proof.
  unfold segment_delta, trace_dt. intro H.
  destruct (nth_error ref_speed i); [|discriminate].
  destruct (nth_error ref_speed (S i)); [|discriminate].
  destruct (nth_error slow_speed i); [|discriminate].
  destruct (nth_error slow_speed (S i)); [|discriminate].
  destruct (nth_error ds i); [|discriminate].
  injection H as <-. eexists _, _. repeat split.
Qed.

(** C1.  Whatever [calculate_integration_delta] returns starts at 0; and
    for two frames over a shared grid and any two lap times, the raw
    cumulative delta is computed, and when its last value is non-zero the
    function returns a series of the grid's length that starts at 0 and
    whose last value has magnitude [|time1_final - time2_final|] (exactly,
    hence within 1e-6). *)
Theorem integration_delta_contract (tel1 tel2 : DataFrame T)
    (time1_final time2_final : Q) :
  (forall delta,
      calculate_integration_delta tel1 tel2 time1_final time2_final
      = Ok delta ->
      nth 0 delta 1 == 0)
  /\ ((length tel1 <= length tel2)%nat ->
      exists raw,
        delta_raw tel1 tel2 time1_final time2_final = Ok raw
        /\ (~ last_of raw == 0 ->
            exists delta,
              calculate_integration_delta tel1 tel2 time1_final time2_final
              = Ok delta
              /\ length delta = length raw
              /\ nth 0 delta 1 == 0
              /\ Qabs (last_of delta) == Qabs (time1_final - time2_final)
              /\ Qabs (Qabs (last_of delta)
                       - Qabs (time1_final - time2_final))
                 <= 1 # 1000000)).
Proof.
  split.
  - intros delta H. unfold calculate_integration_delta in H.
    destruct (delta_raw tel1 tel2 time1_final time2_final) as [raw|] eqn:E;
      [|discriminate].
    cbn [bind] in H. destruct (delta_raw_shape _ _ _ _ _ E) as (ext & -> & _).
    unfold rescale in H.
    destruct (Qlt_bool 0 (Qabs (last_of (0 :: ext)))); [|discriminate].
    injection H as <-. cbn [map nth]. ring.
  - intro Hlen.
    destruct (delta_raw_total tel1 tel2 time1_final time2_final Hlen)
      as [raw Hraw].
    exists raw. split; [exact Hraw|]. intro Hnz.
    unfold calculate_integration_delta. rewrite Hraw. cbn [bind].
    rewrite (rescale_ok raw _ _ Hnz).
    eexists. split; [reflexivity|].
    destruct (delta_raw_shape _ _ _ _ _ Hraw) as (ext & -> & _).
    set (raw := 0 :: ext) in *.
    set (gap := Qabs (time1_final - time2_final)).
    assert (0 <= gap) as Hgap by apply Qabs_nonneg.
    assert (0 < Qabs (last_of raw)) as Hpos.
    { pose proof (Qabs_nonneg (last_of raw)).
      destruct (Qlt_le_dec 0 (Qabs (last_of raw))) as [Hlt|Hle];
        [exact Hlt|].
      exfalso. apply Hnz.
      assert (Qabs (last_of raw) == 0) as Hz by lra.
      revert Hz. apply Qabs_case; intros; lra. }
    assert (Qabs (last_of (map (fun d => d * (gap / Qabs (last_of raw))) raw))
            == gap) as Hlast.
    { unfold last_of at 1.
      rewrite (last_map_nonempty _ raw 0 0) by (subst raw; discriminate).
      fold (last_of raw). rewrite Qabs_Qmult.
      rewrite (Qabs_pos (gap / Qabs (last_of raw)))
        by (apply Qdiv_nonneg; assumption).
      field. lra. }
    split; [apply length_map|]. split; [|split].
    + subst raw. cbn [map nth]. ring.
    + exact Hlast.
    + rewrite Hlast. setoid_replace (gap - gap) with 0 by ring. discriminate.
Qed.

(** C10.  With equal lap times the roles are [ref_speed = speed2],
    [slow_speed = speed1]; over a shared grid the raw cumulative delta is
    then computed and grows, on each segment, by the time of trace 1 minus
    the time of trace 2 over that segment. *)
Theorem tie_makes_trace2_reference (tel1 tel2 : DataFrame T)
    (time1_final time2_final : Q) :
  time1_final == time2_final ->
  (length tel1 <= length tel2)%nat ->
  let speed1 := map kmh_to_ms (map Speed tel1) in
  let speed2 := map kmh_to_ms (map Speed tel2) in
  let ds := np_diff (map Distance tel1) in
  assign_roles speed1 speed2 time1_final time2_final = (speed2, speed1)
  /\ exists raw,
      delta_raw tel1 tel2 time1_final time2_final = Ok raw
      /\ length raw = S (length ds)
      /\ forall i, (i < length ds)%nat ->
           exists dt1 dt2,
             trace_dt ds speed1 i = Some dt1
             /\ trace_dt ds speed2 i = Some dt2
             /\ nth (S i) raw 0 = nth i raw 0 + (dt1 - dt2).
Proof.
  intros Heq Hlen speed1 speed2 ds.
  assert (assign_roles speed1 speed2 time1_final time2_final
          = (speed2, speed1)) as Hroles.
  { unfold assign_roles.
    assert (Qlt_bool time1_final time2_final = false) as ->; [|reflexivity].
    apply Qlt_bool_false_iff. lra. }
  split; [exact Hroles|].
  destruct (delta_raw_total tel1 tel2 time1_final time2_final Hlen)
    as [raw Hraw].
  exists raw. split; [exact Hraw|].
  unfold delta_raw in Hraw. fold speed1 speed2 ds in Hraw.
  rewrite Hroles in Hraw. cbn [fst snd] in Hraw.
  split.
  - destruct (delta_loop_extends _ _ _ _ _ _ Hraw) as (ext & -> & He).
    cbn [app length]. rewrite He, length_seq. reflexivity.
  - intros i Hi.
    destruct (delta_loop_increments ds speed2 speed1 (seq 0 (length ds))
                [0] raw) with (k := i)
      as (d & Hd & Hn); [discriminate|exact Hraw|rewrite length_seq; exact Hi|].
    rewrite seq_nth in Hd by exact Hi. cbn [Nat.add] in Hd.
    destruct (segment_delta_roles _ _ _ _ _ Hd) as (a & b & Ha & Hb & ->).
    exists a, b. split; [exact Ha|]. split; [exact Hb|].
    cbn [length Nat.add pred] in Hn. exact Hn.
Qed.

End IntegrationTheorems.

Lemma integration_delta_contract_witness :
  (length fast_grid <= length slow_grid)%nat
  /\ exists delta,
      calculate_integration_delta fast_grid slow_grid 90 91 = Ok delta
      /\ nth 0 delta 1 == 0
      /\ Qabs (last_of delta) == 1.
Proof.
  split; [cbn; lia|].
  destruct (integration_delta_contract fast_grid slow_grid 90 91)
    as (_ & H).
  destruct H as (raw & Hraw & H); [cbn; lia|].
  vm_compute in Hraw. injection Hraw as <-.
  destruct H as (delta & Hd & _ & H0 & Hl & _).
  { intro Hz. vm_compute in Hz. discriminate Hz. }
  exists delta. split; [exact Hd|]. split; [exact H0|].
  rewrite Hl. reflexivity.
Defined.

Lemma tie_makes_trace2_reference_witness :
  90 == 90
  /\ (length fast_grid <= length slow_grid)%nat
  /\ assign_roles (map kmh_to_ms (map Speed fast_grid))
                  (map kmh_to_ms (map Speed slow_grid)) 90 90
     = (map kmh_to_ms (map Speed slow_grid),
        map kmh_to_ms (map Speed fast_grid)).
Proof.
  split; [reflexivity|]. split; [cbn; lia|].
  apply (tie_makes_trace2_reference fast_grid slow_grid 90 90).
  - reflexivity.
  - cbn; lia.
Defined.

(** C4, at the failing input: two identical two-point grid frames with lap
    times 90 and 91.  The raw cumulative delta ends at 0, and the function
    raises [UnboundLocalError] in place of returning the unscaled series. *)
Theorem zero_raw_delta_raises :
  exists raw,
    delta_raw flat_grid flat_grid 90 91 = Ok raw
    /\ length raw = 2%nat
    /\ last_of raw == 0
    /\ calculate_integration_delta flat_grid flat_grid 90 91
       = Raise UnboundLocalError.
Proof.
  eexists. split; [vm_compute; reflexivity|].
  split; [reflexivity|]. split; reflexivity.
Qed.

(** ** [np.interp] on the sample points themselves *)

Lemma Qle_bool_false_of_lt (x y : Q) : x < y -> Qle_bool y x = false.
Proof.
  intro H. destruct (Qle_bool y x) eqn:E; [|reflexivity].
  apply Qle_bool_iff in E. lra.
Qed.

Lemma Qeq_bool_refl' (x : Q) : Qeq_bool x x = true.
Proof. apply Qeq_bool_iff. reflexivity. Qed.

Lemma sorted_head_le (x0 : Q) (xs : list Q) (j : nat) :
  StronglySorted Qlt (x0 :: xs) -> (j < length (x0 :: xs))%nat ->
  x0 <= nth j (x0 :: xs) 0.
Proof.
  intros Hs Hj. destruct j as [|j]; cbn [nth]; [lra|].
  inversion Hs as [|? ? _ Hall]; subst.
  rewrite Forall_forall in Hall.
  apply Qlt_le_weak, Hall, nth_In. cbn in Hj. lia.
Qed.

Lemma sorted_le_last (xs : list Q) :
  forall x0 j,
    StronglySorted Qlt (x0 :: xs) -> (j < length (x0 :: xs))%nat ->
    nth j (x0 :: xs) 0 <= last (x0 :: xs) 0.
Proof.
  induction xs as [|x1 xs IH]; intros x0 j Hs Hj.
  - cbn in Hj. replace j with 0%nat by lia. cbn. lra.
  - change (last (x0 :: x1 :: xs) 0) with (last (x1 :: xs) 0).
    inversion Hs as [|? ? Hs' Hall]; subst.
    destruct j as [|j].
    + cbn [nth]. inversion Hall as [|? ? H01 _]; subst.
      assert (nth 0 (x1 :: xs) 0 <= last (x1 :: xs) 0) as H
        by (apply IH; [exact Hs'|cbn; lia]).
      cbn [nth] in H. lra.
    + change (nth (S j) (x0 :: x1 :: xs) 0) with (nth j (x1 :: xs) 0).
      apply (IH x1 j Hs'). cbn in *. lia.
Qed.

Lemma interp_scan_hits (xs : list Q) :
  forall fs x0 f0 j,
    length xs = length fs ->
    StronglySorted Qlt (x0 :: xs) ->
    (j < length (x0 :: xs))%nat ->
    interp_scan (nth j (x0 :: xs) 0) x0 f0 (combine xs fs)
    = nth j (f0 :: fs) 0.
Proof.
  induction xs as [|x1 xs IH]; intros fs x0 f0 j Hlen Hs Hj.
  - cbn in Hj. replace j with 0%nat by lia. reflexivity.
  - destruct fs as [|f1 fs]; [discriminate|].
    inversion Hs as [|? ? Hs' Hall]; subst.
    cbn [combine interp_scan].
    destruct j as [|j].
    + cbn [nth]. inversion Hall as [|? ? H01 _]; subst.
      rewrite (Qle_bool_false_of_lt _ _ H01), Qeq_bool_refl'. reflexivity.
    + change (nth (S j) (x0 :: x1 :: xs) 0) with (nth j (x1 :: xs) 0).
      change (nth (S j) (f0 :: f1 :: fs) 0) with (nth j (f1 :: fs) 0).
      assert (x1 <= nth j (x1 :: xs) 0) as Hle
        by (apply sorted_head_le; [exact Hs'|cbn in *; lia]).
      apply Qle_bool_iff in Hle. rewrite Hle.
      apply IH; [cbn in Hlen; congruence|exact Hs'|cbn in *; lia].
Qed.

Lemma interp1_hits (xp fp : list Q) (j : nat) :
  length xp = length fp -> StronglySorted Qlt xp -> (j < length xp)%nat ->
  interp1 (nth j xp 0) xp fp = nth j fp 0.
Proof.
  intros Hlen Hs Hj. destruct xp as [|x0 xs]; [cbn in Hj; lia|].
  destruct fp as [|f0 fs]; [discriminate|].
  unfold interp1. cbn [combine].
  assert (Qlt_bool (last_of (x0 :: xs)) (nth j (x0 :: xs) 0) = false) as ->.
  { apply Qlt_bool_false_iff. apply sorted_le_last; assumption. }
  assert (Qlt_bool (nth j (x0 :: xs) 0) x0 = false) as ->.
  { apply Qlt_bool_false_iff. apply sorted_head_le; assumption. }
  apply interp_scan_hits; [cbn in Hlen; congruence|assumption|assumption].
Qed.

Lemma np_interp_identity (xp fp : list Q) :
  xp <> [] -> length xp = length fp -> Sorted Qlt xp ->
  np_interp xp xp fp = Ok fp.
Proof.
  intros Hne Hlen Hs.
  assert (StronglySorted Qlt xp) as Hss.
  { apply Sorted_StronglySorted; [|exact Hs].
    intros a b c. apply Qlt_trans. }
  unfold np_interp. destruct xp as [|x0 xs] eqn:E; [congruence|].
  rewrite <- E in *. rewrite (proj2 (Nat.eqb_eq _ _) Hlen). f_equal.
  apply (nth_ext _ _ 0 0); [rewrite length_map; exact Hlen|].
  intros j Hj. rewrite length_map in Hj.
  rewrite (nth_indep _ 0 (interp1 0 xp fp))
    by (rewrite length_map; exact Hj).
  rewrite (map_nth (fun v => interp1 v xp fp) xp 0 j).
  apply interp1_hits; assumption.
Qed.

Lemma frame_of_columns (d s t : list Q) :
  length d = length s -> length d = length t ->
  map Distance (frame_of d s t) = d
  /\ map Speed (frame_of d s t) = s
  /\ map Time (frame_of d s t) = t.
Proof.
  revert s t. induction d as [|d0 d IH]; intros [|s0 s] [|t0 t] Hs Ht;
    cbn in *; try discriminate; [repeat split|].
  destruct (IH s t) as (H1 & H2 & H3); [congruence|congruence|].
  rewrite H1, H2, H3. repeat split.
Qed.

(** C9.  For every trace with strictly increasing distances,
    interpolating its speed channel at any of its own distance values gives
    back the speed recorded there (exactly, hence within any tolerance).
    For a non-empty trace the [np.interp] call on the whole distance column
    therefore returns the speed column, and resampling the trace on its own
    distance column, as [resample_on_common_grid] does for each trace,
    returns the trace's own three columns ([np.interp] rejects an empty
    trace with [ValueError]). *)
Theorem resample_round_trip (tel : DataFrame Q) :
  increasing_distances tel ->
  (forall j, (j < length tel)%nat ->
     interp1 (nth j (map Distance tel) 0) (map Distance tel) (map Speed tel)
     = nth j (map Speed tel) 0)
  /\ (tel <> [] ->
      np_interp (map Distance tel) (map Distance tel) (map Speed tel)
      = Ok (map Speed tel)
      /\ exists res,
          resample_one (map Distance tel) tel = Ok res
          /\ map Distance res = map Distance tel
          /\ map Speed res = map Speed tel
          /\ map Time res = map Time tel).
Proof.
  intro Hs. unfold increasing_distances in Hs. split.
  - intros j Hj. apply interp1_hits.
    + rewrite !length_map. reflexivity.
    + apply Sorted_StronglySorted; [|exact Hs].
      intros a b c. apply Qlt_trans.
    + rewrite length_map. exact Hj.
  - intro Hne.
    assert (map Distance tel <> []) as Hne'
      by (destruct tel; [congruence|discriminate]).
    assert (np_interp (map Distance tel) (map Distance tel) (map Speed tel)
            = Ok (map Speed tel)) as HS
      by (apply np_interp_identity;
          [assumption|rewrite !length_map; reflexivity|assumption]).
    assert (np_interp (map Distance tel) (map Distance tel) (map Time tel)
            = Ok (map Time tel)) as HT
      by (apply np_interp_identity;
          [assumption|rewrite !length_map; reflexivity|assumption]).
    split; [exact HS|].
    unfold resample_one. rewrite HS. cbn [bind]. rewrite HT. cbn [bind].
    eexists. split; [reflexivity|].
    apply frame_of_columns; rewrite !length_map; reflexivity.
Qed.

Lemma resample_round_trip_witness :
  increasing_distances timed_trace
  /\ np_interp (map Distance timed_trace) (map Distance timed_trace)
               (map Speed timed_trace)
     = Ok (map Speed timed_trace).
Proof.
  assert (increasing_distances timed_trace) as Hs
    by (unfold increasing_distances; cbn; repeat constructor).
  split; [exact Hs|].
  apply (resample_round_trip timed_trace Hs). discriminate.
Defined.

(** ** [windowed_mse_alignment] *)

Section AlignmentFacts.
Context {T : Type}.

Lemma same_row_refl (l : DataFrame T) : Forall2 same_row l l.
Proof.
  induction l; constructor; auto.
  split; [reflexivity|split; reflexivity].
Qed.

Lemma same_row_trans (l1 l2 l3 : DataFrame T) :
  Forall2 same_row l1 l2 -> Forall2 same_row l2 l3 -> Forall2 same_row l1 l3.
Proof.
  intro H. revert l3. induction H as [|a b l1 l2 Hab _ IH]; intros l3 H';
    inversion H' as [|b' c l2' l3' Hbc Hrest]; subst; constructor.
  - destruct Hab as (Hd & Hs & Ht). destruct Hbc as (Hd' & Hs' & Ht').
    split; [rewrite Hd', Hd; reflexivity|split; congruence].
  - apply IH. exact Hrest.
Qed.

Lemma shift_window_zero (window_start window_end : Q) (l : DataFrame T) :
  Forall2 same_row l (shift_window window_start window_end 0 l).
Proof.
  induction l as [|r l IH]; cbn; constructor; auto.
  destruct (in_window window_start window_end (Distance r)).
  - split; [cbn [Distance]; ring|split; reflexivity].
  - split; [reflexivity|split; reflexivity].
Qed.

Lemma search_without_overlap (w1 w2 : DataFrame T) (l : list Z) :
  (forall offset, In offset l -> no_overlap w1 w2 offset = true) ->
  forall best, fold_left (search_step w1 w2) l best = best.
Proof.
  induction l as [|o l IH]; intros H best; [reflexivity|].
  cbn [fold_left]. unfold search_step at 2. unfold offset_mse.
  rewrite (H o (or_introl eq_refl)). apply IH.
  intros o' Ho'. apply H. right. exact Ho'.
Qed.

Lemma shift_window_speed (ws we : Q) (o : Z) (l : DataFrame T) :
  map Speed (shift_window ws we o l) = map Speed l.
Proof.
  unfold shift_window. rewrite map_map. apply map_ext. intro r.
  destruct (in_window ws we (Distance r)); reflexivity.
Qed.

Lemma align_window_speed (tel1 tel2 : DataFrame T) (ws we : Q)
    (l : DataFrame T) :
  map Speed (align_window tel1 tel2 ws we l) = map Speed l.
Proof.
  unfold align_window.
  destruct (_ || _)%bool; [reflexivity|apply shift_window_speed].
Qed.

Lemma align_windows_speed (tel1 tel2 : DataFrame T) (wb : list Q)
    (idx : list nat) :
  forall l, map Speed (align_windows tel1 tel2 wb idx l) = map Speed l.
Proof.
  unfold align_windows.
  induction idx as [|i idx IH]; intro l; cbn [fold_left]; [reflexivity|].
  rewrite IH. apply align_window_speed.
Qed.

Lemma windowed_mse_alignment_speed (tel1 tel2 : DataFrame T) (nw : nat) :
  map Speed (windowed_mse_alignment tel1 tel2 nw) = map Speed tel2.
Proof. apply align_windows_speed. Qed.

(** C8.  A window whose restriction of either trace is empty, or in which
    no candidate offset leaves an overlap of the distance ranges, changes
    no row of the target (its offset is 0); and when every window is of
    that kind, the aligned trace is the target trace, row for row.  The
    alignment is a total function: no path of it raises. *)
Theorem degenerate_window_keeps_distances (tel1 tel2 : DataFrame T)
    (num_windows : nat) :
  (forall window_start window_end tel2_aligned,
      window_degenerate tel1 tel2 window_start window_end ->
      Forall2 same_row tel2_aligned
              (align_window tel1 tel2 window_start window_end tel2_aligned))
  /\ ((forall i, (i < num_windows)%nat ->
                 window_degenerate tel1 tel2
                   (nth i (window_boundaries tel1 tel2 num_windows) 0)
                   (nth (S i) (window_boundaries tel1 tel2 num_windows) 0)) ->
      Forall2 same_row tel2 (windowed_mse_alignment tel1 tel2 num_windows)).
Proof.
  assert (forall ws we l,
             window_degenerate tel1 tel2 ws we ->
             Forall2 same_row l (align_window tel1 tel2 ws we l)) as Hstep.
  { intros ws we l Hdeg. unfold align_window.
    destruct Hdeg as [H1|[H2|Hall]].
    - rewrite H1. cbn. apply same_row_refl.
    - rewrite H2. cbn. rewrite orb_true_r. apply same_row_refl.
    - destruct (_ || _)%bool; [apply same_row_refl|].
      unfold search_offset. rewrite (search_without_overlap _ _ _ Hall).
      cbn [fst]. apply shift_window_zero. }
  split; [exact Hstep|].
  intro Hall. unfold windowed_mse_alignment, align_windows.
  set (wb := window_boundaries tel1 tel2 num_windows) in *.
  assert (forall idx l,
             (forall i, In i idx -> (i < num_windows)%nat) ->
             Forall2 same_row l
               (fold_left (fun aligned i =>
                             align_window tel1 tel2 (nth i wb 0)
                                          (nth (S i) wb 0) aligned) idx l))
    as Hfold.
  { induction idx as [|i idx IH]; intros l Hidx; cbn [fold_left].
    - apply same_row_refl.
    - eapply same_row_trans.
      + apply (Hstep (nth i wb 0) (nth (S i) wb 0) l).
        apply Hall, Hidx. left. reflexivity.
      + apply IH. intros j Hj. apply Hidx. right. exact Hj. }
  apply Hfold. intros i Hi. apply in_seq in Hi. lia.
Qed.

End AlignmentFacts.

Lemma sparse_window_degenerate :
  window_degenerate sparse_ref dense_target 0 50.
Proof.
  right. right. intros o Ho. vm_compute in Ho.
  repeat (destruct Ho as [<-|Ho]; [reflexivity|]). contradiction.
Qed.

Lemma degenerate_window_keeps_distances_witness :
  window_degenerate sparse_ref dense_target 0 50
  /\ Forall2 same_row dense_target
             (align_window sparse_ref dense_target 0 50 dense_target).
Proof.
  split; [exact sparse_window_degenerate|].
  apply (proj1 (degenerate_window_keeps_distances sparse_ref dense_target 2)).
  exact sparse_window_degenerate.
Defined.

(** C5, at the failing input: reference [drift_ref], target [drift_target],
    two windows [0, 8] and [8, 16], each with chosen offset 2.  The target
    sample at 7 m lies in the first window only, yet it ends at 11 m: moved
    to 9 m by the first window, it is inside the second window's mask,
    which is taken on the already shifted distances, and is moved again.
    Selecting by original distance, as the claim has it, leaves it at
    9 m. *)
Theorem shifted_sample_moved_twice :
  let wb := window_boundaries drift_ref drift_target 2 in
  map Qred wb = [0; 8; 16]
  /\ fst (search_offset (restrict (nth 0 wb 0) (nth 1 wb 0) drift_ref)
                        (restrict (nth 0 wb 0) (nth 1 wb 0) drift_target))
     = 2%Z
  /\ fst (search_offset (restrict (nth 1 wb 0) (nth 2 wb 0) drift_ref)
                        (restrict (nth 1 wb 0) (nth 2 wb 0) drift_target))
     = 2%Z
  /\ in_window (nth 0 wb 0) (nth 1 wb 0) 7 = true
  /\ in_window (nth 1 wb 0) (nth 2 wb 0) 7 = false
  /\ map Distance drift_target = [0; 4; 7; 12; 16]
  /\ map Distance (windowed_mse_alignment drift_ref drift_target 2)
     = [2; 6; 11; 14; 18]
  /\ map Distance (alignment_by_original drift_ref drift_target 2)
     = [2; 6; 9; 14; 18].
Proof. vm_compute. repeat split. Qed.

(** ** The pipeline on traces of one constant speed *)

#[local] Instance py_max_compat : Proper (Qeq ==> Qeq ==> Qeq) py_max.
Proof.
  intros a a' Ha b b' Hb. unfold py_max.
  destruct (Qlt_bool a b) eqn:E1, (Qlt_bool a' b') eqn:E2;
    try (apply Qlt_bool_iff in E1); try (apply Qlt_bool_iff in E2);
    try (apply Qlt_bool_false_iff in E1);
    try (apply Qlt_bool_false_iff in E2); lra.
Qed.

Lemma last_all_zero (l : list Q) :
  Forall (fun d => d == 0) l -> last_of l == 0.
Proof.
  unfold last_of. induction 1 as [|a l Ha Hl IH]; [reflexivity|].
  destruct l as [|b l]; [exact Ha|exact IH].
Qed.

Lemma np_interp_ok (x xp fp : list Q) :
  xp <> [] -> length xp = length fp ->
  np_interp x xp fp = Ok (map (fun v => interp1 v xp fp) x).
Proof.
  intros Hne Hlen. unfold np_interp. destruct xp; [congruence|].
  rewrite (proj2 (Nat.eqb_eq _ _) Hlen). reflexivity.
Qed.

Lemma interp_scan_const (c x : Q) (rest : list (Q * Q)) :
  forall x0 f0,
    f0 == c -> Forall (fun p => snd p == c) rest ->
    interp_scan x x0 f0 rest == c.
Proof.
  induction rest as [|[x1 f1] rest IH]; intros x0 f0 H0 Hrest; cbn.
  - exact H0.
  - inversion Hrest as [|? ? H1 Hrest']; subst. cbn in H1.
    destruct (Qle_bool x1 x); [apply IH; assumption|].
    destruct (Qeq_bool x0 x); [exact H0|].
    rewrite H0, H1. unfold Qdiv. ring.
Qed.

Lemma combine_snd_all (c : Q) (xp fp : list Q) :
  Forall (fun f => f == c) fp ->
  Forall (fun p => snd p == c) (combine xp fp).
Proof.
  intro H. revert xp. induction H as [|f fp Hf _ IH]; intros [|x xp]; cbn;
    constructor; auto.
Qed.

Lemma interp1_const (c x : Q) (xp fp : list Q) :
  xp <> [] -> length xp = length fp ->
  Forall (fun f => f == c) fp ->
  interp1 x xp fp == c.
Proof.
  intros Hne Hlen Hall. unfold interp1.
  destruct xp as [|x0 xs]; [congruence|].
  destruct fp as [|f0 fs]; [discriminate|]. cbn [combine].
  assert (last_of (f0 :: fs) == c) as Hlast.
  { unfold last_of. clear Hlen Hne.
    revert f0 Hall. induction fs as [|f1 fs IH]; intros f0 Hall.
    - inversion Hall; assumption.
    - change (last (f0 :: f1 :: fs) 0) with (last (f1 :: fs) 0).
      apply IH. inversion Hall; assumption. }
  inversion Hall as [|? ? H0 Hrest]; subst.
  destruct (Qlt_bool (last_of (x0 :: xs)) x); [exact Hlast|].
  destruct (Qlt_bool x x0); [exact H0|].
  apply interp_scan_const; [exact H0|].
  apply combine_snd_all. exact Hrest.
Qed.

Section ConstantSpeed.
Context {T : Type}.

Lemma calculate_custom_time_total (tel : DataFrame T) (real_laptime : Q) :
  tel <> [] ->
  exists res,
    calculate_custom_time tel real_laptime = Ok res
    /\ map Distance res = map Distance tel
    /\ map Speed res = map Speed tel.
Proof.
  intro Hne. unfold calculate_custom_time.
  assert (length (scaled_time tel real_laptime) = length tel) as Hl.
  { unfold scaled_time. destruct (Qlt_bool 0 (last_of (custom_time tel)));
      rewrite ?length_map, custom_time_length;
      destruct tel; cbn; congruence. }
  destruct (set_time_columns tel _ Hl) as (res & Hres & HD & HS & _).
  exists res. repeat split; assumption.
Qed.

Lemma segment_delta_zero (c : Q) (ds ref_speed slow_speed : list Q)
    (i : nat) (d : Q) :
  Forall (fun s => s == c) ref_speed ->
  Forall (fun s => s == c) slow_speed ->
  segment_delta ds ref_speed slow_speed i = Some d ->
  d == 0.
Proof.
  intros Hr Hs H. unfold segment_delta in H.
  rewrite Forall_forall in Hr, Hs.
  destruct (nth_error ref_speed i) as [r0|] eqn:E1; [|discriminate].
  destruct (nth_error ref_speed (S i)) as [r1|] eqn:E2; [|discriminate].
  destruct (nth_error slow_speed i) as [s0|] eqn:E3; [|discriminate].
  destruct (nth_error slow_speed (S i)) as [s1|] eqn:E4; [|discriminate].
  destruct (nth_error ds i) as [dd|]; [|discriminate].
  injection H as <-.
  apply nth_error_In, Hr in E1. apply nth_error_In, Hr in E2.
  apply nth_error_In, Hs in E3. apply nth_error_In, Hs in E4.
  unfold segment_time. rewrite E1, E2, E3, E4. ring.
Qed.

Lemma delta_loop_zero (c : Q) (ds ref_speed slow_speed : list Q) :
  Forall (fun s => s == c) ref_speed ->
  Forall (fun s => s == c) slow_speed ->
  forall idx acc raw,
    Forall (fun d => d == 0) acc ->
    delta_loop ds ref_speed slow_speed idx acc = Ok raw ->
    Forall (fun d => d == 0) raw.
Proof.
  intros Hr Hs. induction idx as [|i idx IH]; intros acc raw Hacc H;
    cbn [delta_loop] in H.
  - injection H as <-. exact Hacc.
  - destruct (segment_delta ds ref_speed slow_speed i) as [d|] eqn:E;
      [|discriminate].
    eapply IH; [|exact H].
    apply Forall_app. split; [exact Hacc|]. constructor; [|constructor].
    rewrite (last_all_zero acc Hacc).
    rewrite (segment_delta_zero c _ _ _ _ _ Hr Hs E). reflexivity.
Qed.

Lemma delta_raw_zero (v : Q) (g1 g2 : DataFrame T) (t1 t2 : Q)
    (raw : list Q) :
  Forall (fun r => Speed r == v) g1 ->
  Forall (fun r => Speed r == v) g2 ->
  delta_raw g1 g2 t1 t2 = Ok raw ->
  Forall (fun d => d == 0) raw.
Proof.
  intros H1 H2 H. unfold delta_raw in H.
  assert (forall g : DataFrame T,
             Forall (fun r => Speed r == v) g ->
             Forall (fun s => s == kmh_to_ms v)
                    (map kmh_to_ms (map Speed g))) as Hk.
  { intros g Hg. rewrite map_map. apply Forall_map.
    eapply Forall_impl; [|exact Hg]. cbn. intros r Hr.
    unfold kmh_to_ms. rewrite Hr. reflexivity. }
  apply (delta_loop_zero (kmh_to_ms v)) in H; [exact H| | |].
  - unfold assign_roles. destruct (Qlt_bool t1 t2); cbn [fst]; auto.
  - unfold assign_roles. destruct (Qlt_bool t1 t2); cbn [snd]; auto.
  - constructor; [reflexivity|constructor].
Qed.

End ConstantSpeed.

Lemma resample_one_ok (grid : list Q) (tel : DataFrame Q) :
  tel <> [] ->
  exists g,
    resample_one grid tel = Ok g
    /\ map Distance g = grid
    /\ map Speed g
       = map (fun x => interp1 x (map Distance tel) (map Speed tel)) grid.
Proof.
  intro Hne. unfold resample_one.
  assert (map Distance tel <> []) as Hne'
    by (destruct tel; [congruence|discriminate]).
  rewrite !np_interp_ok by (try assumption; rewrite !length_map; reflexivity).
  cbn [bind]. eexists. split; [reflexivity|].
  match goal with
  | |- context [frame_of ?d ?s ?t] =>
      destruct (frame_of_columns d s t) as (Hd & Hs & _);
        [rewrite length_map; reflexivity|rewrite length_map; reflexivity|]
  end.
  split; assumption.
Qed.

Lemma resample_total (tel1 tel2 : DataFrame Q) (grid_step : Q) :
  tel1 <> [] -> tel2 <> [] -> ~ grid_step == 0 ->
  exists grid g1 g2,
    resample_on_common_grid tel1 tel2 grid_step = Ok (g1, g2)
    /\ map Distance g1 = grid /\ map Distance g2 = grid
    /\ map Speed g1
       = map (fun x => interp1 x (map Distance tel1) (map Speed tel1)) grid
    /\ map Speed g2
       = map (fun x => interp1 x (map Distance tel2) (map Speed tel2)) grid.
Proof.
  intros H1 H2 Hstep. unfold resample_on_common_grid.
  destruct tel1 as [|r1 tl1] eqn:E1; [congruence|].
  destruct tel2 as [|r2 tl2] eqn:E2; [congruence|].
  rewrite <- E1, <- E2 in *.
  unfold np_arange.
  destruct (Qeq_bool grid_step 0) eqn:Eq;
    [apply Qeq_bool_iff in Eq; contradiction|].
  cbn [bind].
  match goal with
  | |- context [resample_one ?g tel1] => set (grid := g)
  end.
  destruct (resample_one_ok grid tel1) as (g1 & -> & Hd1 & Hs1);
    [subst; discriminate|].
  destruct (resample_one_ok grid tel2) as (g2 & -> & Hd2 & Hs2);
    [subst; discriminate|].
  cbn [bind]. exists grid, g1, g2. repeat split; assumption.
Qed.

Section ConstantSpeedPipeline.
Context {T : Type}.

Lemma interp_column_const (v : Q) (grid : list Q) (tel : DataFrame Q) :
  tel <> [] ->
  Forall (fun s => s == v) (map Speed tel) ->
  Forall (fun s => s == v)
         (map (fun x => interp1 x (map Distance tel) (map Speed tel)) grid).
Proof.
  intros Hne Hall. apply Forall_map. apply Forall_forall. intros x _.
  apply interp1_const.
  - destruct tel; [congruence|discriminate].
  - rewrite !length_map. reflexivity.
  - exact Hall.
Qed.

(** Two non-empty traces that both run at one constant speed reach the
    integration stage on resampled frames of constant speed, and the raw
    cumulative delta computed there is 0 at every grid point. *)
Lemma constant_speed_flat (tel1 tel2 : DataFrame T) (v lt1 lt2 : Q)
    (num_windows : nat) (grid_step : Q) :
  tel1 <> [] -> tel2 <> [] -> ~ grid_step == 0 ->
  Forall (fun r => Speed r == v) tel1 ->
  Forall (fun r => Speed r == v) tel2 ->
  exists g1 g2 raw,
    pipeline_grids tel1 tel2 lt1 lt2 num_windows grid_step = Ok (g1, g2)
    /\ map Distance g1 = map Distance g2
    /\ delta_raw g1 g2 lt1 lt2 = Ok raw
    /\ length raw = S (pred (length g1))
    /\ Forall (fun d => d == 0) raw.
Proof.
  intros H1 H2 Hstep Hv1 Hv2.
  destruct (calculate_custom_time_total tel1 lt1 H1) as (t1 & Ht1 & _ & HS1).
  destruct (calculate_custom_time_total tel2 lt2 H2) as (t2 & Ht2 & _ & HS2).
  unfold pipeline_grids. rewrite Ht1, Ht2. cbn [bind].
  set (a := windowed_mse_alignment t1 t2 num_windows).
  assert (map Speed a = map Speed tel2) as HSa
    by (subst a; rewrite windowed_mse_alignment_speed; exact HS2).
  assert (t1 <> []) as Hn1.
  { intro E. rewrite E in HS1. destruct tel1; [congruence|discriminate]. }
  assert (a <> []) as Hna.
  { intro E. rewrite E in HSa. destruct tel2; [congruence|discriminate]. }
  destruct (resample_total t1 a grid_step Hn1 Hna Hstep)
    as (grid & g1 & g2 & Hr & Hd1 & Hd2 & Hs1 & Hs2).
  assert (Forall (fun r => Speed r == v) g1) as Hg1.
  { apply Forall_map with (f := Speed) (P := fun s => s == v).
    rewrite Hs1. apply interp_column_const; [exact Hn1|].
    rewrite HS1. apply Forall_map. exact Hv1. }
  assert (Forall (fun r => Speed r == v) g2) as Hg2.
  { apply Forall_map with (f := Speed) (P := fun s => s == v).
    rewrite Hs2. apply interp_column_const; [exact Hna|].
    rewrite HSa. apply Forall_map. exact Hv2. }
  assert (length g1 = length g2) as Hlen.
  { rewrite <- (length_map Distance g1), <- (length_map Distance g2).
    congruence. }
  destruct (delta_raw_total g1 g2 lt1 lt2) as [raw Hraw]; [lia|].
  exists g1, g2, raw. split; [exact Hr|]. split; [congruence|].
  split; [exact Hraw|]. split.
  - destruct (delta_raw_shape _ _ _ _ _ Hraw) as (ext & -> & He).
    cbn [length]. rewrite He. reflexivity.
  - exact (delta_raw_zero v g1 g2 lt1 lt2 raw Hg1 Hg2 Hraw).
Qed.

End ConstantSpeedPipeline.

Lemma calculate_delta_zero_raw {T : Type} (tel1 tel2 : DataFrame T)
    (lt1 lt2 : Q) (num_windows : nat) (grid_step : Q)
    (g1 g2 : DataFrame Q) (raw : list Q) :
  pipeline_grids tel1 tel2 lt1 lt2 num_windows grid_step = Ok (g1, g2) ->
  delta_raw g1 g2 lt1 lt2 = Ok raw ->
  last_of raw == 0 ->
  calculate_delta tel1 tel2 lt1 lt2 num_windows grid_step
  = Raise UnboundLocalError.
Proof.
  intros Hp Hraw Hz. unfold calculate_delta. rewrite Hp. cbn [bind fst snd].
  unfold calculate_integration_delta. rewrite Hraw. cbn [bind].
  rewrite (rescale_zero raw lt1 lt2 Hz). reflexivity.
Qed.

Lemma scenario_trace_speed (v : Q) :
  Forall (fun r => Speed r == v) (scenario_trace v).
Proof.
  unfold scenario_trace. apply Forall_map. apply Forall_forall.
  intros i _. reflexivity.
Qed.

Lemma scenario_flat (v : Q) :
  exists g1 g2 raw,
    pipeline_grids (scenario_trace v) (scenario_trace v) 90 91 4 5
    = Ok (g1, g2)
    /\ map Distance g1 = map Distance g2
    /\ delta_raw g1 g2 90 91 = Ok raw
    /\ length raw = S (pred (length g1))
    /\ Forall (fun d => d == 0) raw.
Proof.
  assert (scenario_trace v <> []) as Hne by discriminate.
  assert (~ 5 == 0) as Hstep by discriminate.
  exact (constant_speed_flat (scenario_trace v) (scenario_trace v) v 90 91
           4 5 Hne Hne Hstep (scenario_trace_speed v)
           (scenario_trace_speed v)).
Qed.

(** The scenario evaluated at 200 km/h: every window settles on the first
    offset scanned, -15 m (all overlapping offsets score an MSE of 0 and
    the comparison is strict), so the aligned target runs from -15 m to
    985 m, still in increasing order, and the shared 5 m grid is
    0, 5, ..., 985. *)
Lemma scenario_200_stages :
  match calculate_custom_time (scenario_trace 200) 90,
        calculate_custom_time (scenario_trace 200) 91 with
  | Ok tel1_timed, Ok tel2_timed =>
      let tel2_aligned := windowed_mse_alignment tel1_timed tel2_timed 4 in
      map Qred (map Distance tel2_aligned)
      = map (fun i => inject_Z (100 * Z.of_nat i - 15)) (seq 0 11)
      /\ match resample_on_common_grid tel1_timed tel2_aligned 5 with
         | Ok (g1, g2) =>
             map Qred (map Distance g1)
             = map (fun i => inject_Z (5 * Z.of_nat i)) (seq 0 198)
         | Raise _ => False
         end
  | _, _ => False
  end.
Proof. vm_compute. split; reflexivity. Qed.

Lemma pipeline_grids_stages {T : Type} (tel1 tel2 : DataFrame T)
    (lt1 lt2 : Q) (num_windows : nat) (grid_step : Q)
    (g1 g2 : DataFrame Q) :
  pipeline_grids tel1 tel2 lt1 lt2 num_windows grid_step = Ok (g1, g2) ->
  exists t1 t2,
    calculate_custom_time tel1 lt1 = Ok t1
    /\ calculate_custom_time tel2 lt2 = Ok t2
    /\ resample_on_common_grid t1 (windowed_mse_alignment t1 t2 num_windows)
                               grid_step
       = Ok (g1, g2).
Proof.
  unfold pipeline_grids. intro H.
  destruct (calculate_custom_time tel1 lt1) as [t1|]; [|discriminate].
  destruct (calculate_custom_time tel2 lt2) as [t2|]; [|discriminate].
  exists t1, t2. repeat split. exact H.
Qed.

Lemma scenario_200_grid (g1 g2 : DataFrame Q) :
  pipeline_grids (scenario_trace 200) (scenario_trace 200) 90 91 4 5
  = Ok (g1, g2) ->
  map Qred (map Distance g1)
  = map (fun i => inject_Z (5 * Z.of_nat i)) (seq 0 198).
Proof.
  intro Hp.
  destruct (pipeline_grids_stages _ _ _ _ _ _ _ _ Hp)
    as (t1 & t2 & E1 & E2 & Er).
  pose proof scenario_200_stages as H.
  rewrite E1, E2 in H. cbv zeta in H. rewrite Er in H.
  exact (proj2 H).
Qed.

(** C3 (as the code has it).  In the end-to-end scenario -- both traces
    with distances 0, 100, ..., 1000 and the same constant speed [v], lap
    times 90 and 91, 4 windows, a 5 m grid -- the pipeline reaches the
    integration stage on two frames over one grid, and the raw cumulative
    delta computed there is 0 at every grid point: a flat curve whose last
    value is 0, which the rescaling to the 1 s gap leaves untouched.  At
    200 km/h the grid is 0, 5, ..., 985 and the flat curve has 198
    points. *)
Theorem scenario_delta_is_flat :
  (forall v, exists g1 g2 raw,
      pipeline_grids (scenario_trace v) (scenario_trace v) 90 91 4 5
      = Ok (g1, g2)
      /\ map Distance g1 = map Distance g2
      /\ delta_raw g1 g2 90 91 = Ok raw
      /\ length raw = S (pred (length g1))
      /\ Forall (fun d => d == 0) raw
      /\ last_of raw == 0)
  /\ exists g1 g2 raw,
      pipeline_grids (scenario_trace 200) (scenario_trace 200) 90 91 4 5
      = Ok (g1, g2)
      /\ map Qred (map Distance g1)
         = map (fun i => inject_Z (5 * Z.of_nat i)) (seq 0 198)
      /\ delta_raw g1 g2 90 91 = Ok raw
      /\ length raw = 198%nat
      /\ Forall (fun d => d == 0) raw.
Proof.
  split.
  - intro v.
    destruct (scenario_flat v)
      as (g1 & g2 & raw & Hp & Hd & Hraw & Hlen & Hz).
    exists g1, g2, raw.
    split; [exact Hp|]. split; [exact Hd|]. split; [exact Hraw|].
    split; [exact Hlen|]. split; [exact Hz|].
    apply last_all_zero. exact Hz.
  - destruct (scenario_flat 200)
      as (g1 & g2 & raw & Hp & Hd & Hraw & Hlen & Hz).
    pose proof (scenario_200_grid g1 g2 Hp) as Hgrid.
    exists g1, g2, raw.
    split; [exact Hp|]. split; [exact Hgrid|]. split; [exact Hraw|].
    split; [|exact Hz].
    rewrite Hlen. apply (f_equal (@length Q)) in Hgrid.
    rewrite !length_map, length_seq in Hgrid. rewrite Hgrid. reflexivity.
Qed.

(** C3, counterexample: at 200 km/h the pipeline returns no delta curve
    whose last value has magnitude 1. *)
Lemma scenario_final_delta_not_one :
  ~ exists delta distances,
      calculate_delta (scenario_trace 200) (scenario_trace 200) 90 91 4 5
      = Ok (delta, distances)
      /\ Qabs (last_of delta) == 1.
Proof.
  intros (delta & distances & H & _).
  destruct (scenario_flat 200) as (g1 & g2 & raw & Hp & _ & Hraw & _ & Hz).
  rewrite (calculate_delta_zero_raw _ _ _ _ _ _ g1 g2 raw Hp Hraw
             (last_all_zero raw Hz)) in H.
  discriminate H.
Qed.

(** * Further properties of the pipeline stages *)

(** ** The offset search of [windowed_mse_alignment] *)

Section SearchFacts.
Context {T : Type}.
Variables window_tel1 window_tel2 : DataFrame T.

Lemma search_fold_first_minimum (l : list Z) :
  let best := fold_left (search_step window_tel1 window_tel2) l (0%Z, None) in
  ((forall o, In o l -> offset_mse window_tel1 window_tel2 o = None)
   /\ best = (0%Z, None))
  \/ exists p1 o p2 m,
      l = p1 ++ o :: p2
      /\ best = (o, Some m)
      /\ offset_mse window_tel1 window_tel2 o = Some m
      /\ (forall o' m', In o' p1 ->
            offset_mse window_tel1 window_tel2 o' = Some m' -> m < m')
      /\ (forall o' m', In o' p2 ->
            offset_mse window_tel1 window_tel2 o' = Some m' -> m <= m').
Proof.
  induction l as [|x l IH] using rev_ind; cbn zeta.
  - left. split; [intros o []|reflexivity].
  - rewrite fold_left_app. cbn [fold_left]. cbn zeta in IH.
    destruct IH as [[Hnone ->]|(p1 & o & p2 & m & -> & -> & Ho & Hlt & Hle)].
    + unfold search_step.
      destruct (offset_mse window_tel1 window_tel2 x) as [mx|] eqn:Ex.
      * right. exists l, x, [], mx. cbn [snd improves].
        repeat split; try assumption.
        -- intros o' m' Hin Hm'. rewrite (Hnone o' Hin) in Hm'. discriminate.
        -- intros o' m' [].
      * left. split; [|reflexivity].
        intros o Hin. apply in_app_or in Hin.
        destruct Hin as [Hin|[<-|[]]]; [apply Hnone; exact Hin|exact Ex].
    + unfold search_step.
      destruct (offset_mse window_tel1 window_tel2 x) as [mx|] eqn:Ex.
      * cbn [snd improves]. destruct (Qlt_bool mx m) eqn:Elt.
        -- apply Qlt_bool_iff in Elt. right.
           exists (p1 ++ o :: p2), x, [], mx.
           repeat split; try assumption.
           ++ intros o' m' Hin Hm'. apply in_app_or in Hin.
              destruct Hin as [Hin|[<-|Hin]].
              ** specialize (Hlt o' m' Hin Hm'). lra.
              ** rewrite Ho in Hm'. injection Hm' as <-. exact Elt.
              ** specialize (Hle o' m' Hin Hm'). lra.
           ++ intros o' m' [].
        -- apply Qlt_bool_false_iff in Elt. right.
           exists p1, o, (p2 ++ [x]), m. rewrite <- app_assoc. cbn [app].
           repeat split; try assumption.
           intros o' m' Hin Hm'. apply in_app_or in Hin.
           destruct Hin as [Hin|[<-|[]]].
           ++ exact (Hle o' m' Hin Hm').
           ++ rewrite Ex in Hm'. injection Hm' as <-. exact Elt.
      * right. exists p1, o, (p2 ++ [x]), m. rewrite <- app_assoc. cbn [app].
        repeat split; try assumption.
        intros o' m' Hin Hm'. apply in_app_or in Hin.
        destruct Hin as [Hin|[<-|[]]].
        -- exact (Hle o' m' Hin Hm').
        -- rewrite Ex in Hm'. discriminate.
Qed.

(** X1.  The offset search returns the first minimum of the scored
    offsets: either no offset of -15..15 can be scored and the result is
    offset 0 with an infinite MSE, or the result is an offset of the scan
    together with its MSE, strictly below the MSE of every offset scanned
    before it and not above the MSE of any offset scanned after it. *)
Theorem search_offset_first_minimum :
  ((forall o, In o offsets ->
              offset_mse window_tel1 window_tel2 o = None)
   /\ search_offset window_tel1 window_tel2 = (0%Z, None))
  \/ exists earlier o later m,
      offsets = earlier ++ o :: later
      /\ search_offset window_tel1 window_tel2 = (o, Some m)
      /\ offset_mse window_tel1 window_tel2 o = Some m
      /\ (forall o' m', In o' earlier ->
            offset_mse window_tel1 window_tel2 o' = Some m' -> m < m')
      /\ (forall o' m', In o' later ->
            offset_mse window_tel1 window_tel2 o' = Some m' -> m <= m').
Proof. exact (search_fold_first_minimum offsets). Qed.

Lemma offsets_range (o : Z) : In o offsets -> (-15 <= o <= 15)%Z.
Proof.
  unfold offsets. intro H. apply in_map_iff in H.
  destruct H as (i & <- & Hi). apply in_seq in Hi. lia.
Qed.

Lemma search_offset_range :
  (Z.abs (fst (search_offset window_tel1 window_tel2)) <= 15)%Z.
Proof.
  pose proof (search_fold_first_minimum offsets) as H. cbv zeta in H.
  unfold search_offset.
  destruct H as [[_ Hbest]|(p1 & o & p2 & m & Hsplit & Hbest & _)];
    rewrite Hbest; cbn [fst].
  - lia.
  - assert (In o offsets) as Hin
      by (rewrite Hsplit; apply in_or_app; right; left; reflexivity).
    apply offsets_range in Hin. lia.
Qed.

End SearchFacts.

(** ** What [windowed_mse_alignment] can do to a row *)

Section AlignmentBounds.
Context {T : Type}.

Lemma moved_within_refl (l : DataFrame T) : Forall2 (moved_within 0) l l.
Proof.
  induction l as [|r l IH]; constructor; [|exact IH].
  split; [reflexivity|]. split; [reflexivity|].
  exists 0%Z. split; [lia|]. cbn. ring.
Qed.

Lemma moved_within_weaken (a b : Z) (l l' : DataFrame T) :
  (a <= b)%Z -> Forall2 (moved_within a) l l' -> Forall2 (moved_within b) l l'.
Proof.
  intros Hab H. induction H as [|r r' l l' Hr _ IH]; constructor; [|exact IH].
  destruct Hr as (Hs & Ht & k & Hk & Hd).
  split; [exact Hs|]. split; [exact Ht|]. exists k. split; [lia|exact Hd].
Qed.

Lemma moved_within_trans (a b : Z) (l1 l2 l3 : DataFrame T) :
  Forall2 (moved_within a) l1 l2 -> Forall2 (moved_within b) l2 l3 ->
  Forall2 (moved_within (a + b)) l1 l3.
Proof.
  intro H. revert l3. induction H as [|r1 r2 l1 l2 H12 _ IH]; intros l3 H';
    inversion H' as [|r2' r3 l2' l3' H23 Hrest]; subst; constructor.
  - destruct H12 as (Hs & Ht & k & Hk & Hd).
    destruct H23 as (Hs' & Ht' & k' & Hk' & Hd').
    split; [congruence|]. split; [congruence|].
    exists (k + k')%Z. split; [lia|].
    rewrite Hd', Hd, inject_Z_plus. ring.
  - apply IH. exact Hrest.
Qed.

Lemma shift_window_moved (ws we : Q) (o : Z) (l : DataFrame T) :
  Forall2 (moved_within (Z.abs o)) l (shift_window ws we o l).
Proof.
  induction l as [|r l IH]; cbn [shift_window map]; constructor;
    [|exact IH].
  destruct (in_window ws we (Distance r)).
  - split; [reflexivity|]. split; [reflexivity|].
    exists o. split; [lia|]. reflexivity.
  - split; [reflexivity|]. split; [reflexivity|].
    exists 0%Z. split; [lia|]. cbn. ring.
Qed.

Lemma align_window_moved (tel1 tel2 : DataFrame T) (ws we : Q)
    (l : DataFrame T) :
  Forall2 (moved_within 15) l (align_window tel1 tel2 ws we l).
Proof.
  unfold align_window. destruct (_ || _)%bool.
  - apply (moved_within_weaken 0); [lia|apply moved_within_refl].
  - eapply moved_within_weaken; [|apply shift_window_moved].
    apply search_offset_range.
Qed.

Lemma align_windows_moved (tel1 tel2 : DataFrame T) (wb : list Q)
    (idx : list nat) :
  forall l,
    Forall2 (moved_within (15 * Z.of_nat (length idx))) l
            (align_windows tel1 tel2 wb idx l).
Proof.
  unfold align_windows.
  induction idx as [|i idx IH]; intro l; cbn [fold_left].
  - apply moved_within_refl.
  - replace (15 * Z.of_nat (length (i :: idx)))%Z
      with (15 + 15 * Z.of_nat (length idx))%Z by (cbn [length]; lia).
    eapply moved_within_trans; [apply align_window_moved|apply IH].
Qed.

(** X2.  Whatever the two traces are, [windowed_mse_alignment] returns
    the target trace row for row with its [Speed] and [Time] untouched and
    each distance moved by a whole number of metres of magnitude at most
    15 per window. *)
Theorem alignment_moves_each_row_boundedly (tel1 tel2 : DataFrame T)
    (num_windows : nat) :
  Forall2 (moved_within (15 * Z.of_nat num_windows)) tel2
          (windowed_mse_alignment tel1 tel2 num_windows).
Proof.
  unfold windowed_mse_alignment.
  pose proof (align_windows_moved tel1 tel2
                (window_boundaries tel1 tel2 num_windows)
                (seq 0 num_windows) tel2) as H.
  rewrite length_seq in H. exact H.
Qed.

End AlignmentBounds.

(** ** [np.interp] never leaves the range of the sample values *)

Lemma interp_scan_in_range (lo hi x : Q) (rest : list (Q * Q)) :
  forall x0 f0,
    x0 <= x -> lo <= f0 <= hi ->
    Forall (fun p => lo <= snd p <= hi) rest ->
    lo <= interp_scan x x0 f0 rest <= hi.
Proof.
  induction rest as [|[x1 f1] rest IH]; intros x0 f0 Hx H0 Hrest;
    cbn [interp_scan]; [exact H0|].
  inversion Hrest as [|? ? H1 Hrest']; subst. cbn [snd] in H1.
  destruct (Qle_bool x1 x) eqn:E1.
  - apply Qle_bool_iff in E1. apply IH; assumption.
  - destruct (Qeq_bool x0 x); [exact H0|].
    assert (x < x1) as Hlt.
    { apply Qnot_le_lt. intro Hle. apply Qle_bool_iff in Hle. congruence. }
    set (t := (x - x0) / (x1 - x0)).
    assert (0 <= t) as Ht0 by (apply Qdiv_nonneg; lra).
    assert (t <= 1) as Ht1.
    { unfold t. apply Qle_shift_div_r; lra. }
    assert ((f1 - f0) / (x1 - x0) * (x - x0) + f0 == f0 + t * (f1 - f0))
      as -> by (unfold t; field; lra).
    split; nra.
Qed.

Lemma last_in_range (lo hi : Q) (l : list Q) :
  l <> [] -> Forall (fun f => lo <= f <= hi) l -> lo <= last_of l <= hi.
Proof.
  unfold last_of. intros Hne H. induction H as [|a l Ha Hl IH]; [congruence|].
  destruct l as [|b l]; [exact Ha|]. apply IH. discriminate.
Qed.

Lemma combine_snd_in_range (lo hi : Q) (xp fp : list Q) :
  Forall (fun f => lo <= f <= hi) fp ->
  Forall (fun p => lo <= snd p <= hi) (combine xp fp).
Proof.
  intro H. revert xp. induction H as [|f fp Hf _ IH]; intros [|x xp]; cbn;
    constructor; auto.
Qed.

Lemma interp1_in_range (lo hi x : Q) (xp fp : list Q) :
  xp <> [] -> length xp = length fp ->
  Forall (fun f => lo <= f <= hi) fp ->
  lo <= interp1 x xp fp <= hi.
Proof.
  intros Hne Hlen Hall. unfold interp1.
  destruct xp as [|x0 xs]; [congruence|].
  destruct fp as [|f0 fs]; [discriminate|]. cbn [combine].
  destruct (Qlt_bool (last_of (x0 :: xs)) x);
    [apply last_in_range; [discriminate|exact Hall]|].
  inversion Hall as [|? ? H0 Hrest]; subst.
  destruct (Qlt_bool x x0) eqn:E; [exact H0|].
  apply Qlt_bool_false_iff in E.
  apply interp_scan_in_range; [exact E|exact H0|].
  apply combine_snd_in_range. exact Hrest.
Qed.

Lemma interp_column_in_range (lo hi : Q) (grid xp fp : list Q) :
  xp <> [] -> length xp = length fp ->
  Forall (fun f => lo <= f <= hi) fp ->
  Forall (fun f => lo <= f <= hi) (map (fun x => interp1 x xp fp) grid).
Proof.
  intros Hne Hlen Hall. apply Forall_map. apply Forall_forall. intros x _.
  apply interp1_in_range; assumption.
Qed.

(** X3.  Resampling two non-empty traces with a non-zero grid step
    returns two frames, and no resampled speed leaves the range of the
    speeds of the trace it comes from: interpolation holds the end values
    outside the trace and never overshoots between samples. *)
Theorem resampled_speed_stays_in_range (tel1 tel2 : DataFrame Q)
    (grid_step lo1 hi1 lo2 hi2 : Q) :
  tel1 <> [] -> tel2 <> [] -> ~ grid_step == 0 ->
  Forall (fun r => lo1 <= Speed r <= hi1) tel1 ->
  Forall (fun r => lo2 <= Speed r <= hi2) tel2 ->
  exists g1 g2,
    resample_on_common_grid tel1 tel2 grid_step = Ok (g1, g2)
    /\ Forall (fun r => lo1 <= Speed r <= hi1) g1
    /\ Forall (fun r => lo2 <= Speed r <= hi2) g2.
Proof.
  intros H1 H2 Hstep Hr1 Hr2.
  destruct (resample_total tel1 tel2 grid_step H1 H2 Hstep)
    as (grid & g1 & g2 & Hres & _ & _ & Hs1 & Hs2).
  exists g1, g2. split; [exact Hres|]. split.
  - apply Forall_map with (f := Speed) (P := fun s => lo1 <= s <= hi1).
    rewrite Hs1. apply interp_column_in_range.
    + destruct tel1; [congruence|discriminate].
    + rewrite !length_map. reflexivity.
    + apply Forall_map. exact Hr1.
  - apply Forall_map with (f := Speed) (P := fun s => lo2 <= s <= hi2).
    rewrite Hs2. apply interp_column_in_range.
    + destruct tel2; [congruence|discriminate].
    + rewrite !length_map. reflexivity.
    + apply Forall_map. exact Hr2.
Qed.

Lemma resampled_speed_stays_in_range_witness :
  timed_trace <> []
  /\ ~ 5 == 0
  /\ Forall (fun r => 100 <= Speed r <= 200) timed_trace
  /\ exists g1 g2,
      resample_on_common_grid timed_trace timed_trace 5 = Ok (g1, g2)
      /\ Forall (fun r => 100 <= Speed r <= 200) g1.
Proof.
  assert (timed_trace <> []) as Hne by discriminate.
  assert (~ 5 == 0) as Hstep by discriminate.
  assert (Forall (fun r => 100 <= Speed r <= 200) timed_trace) as Hr
    by (repeat constructor; cbn; discriminate).
  split; [exact Hne|]. split; [exact Hstep|]. split; [exact Hr|].
  destruct (resampled_speed_stays_in_range timed_trace timed_trace 5
              100 200 100 200 Hne Hne Hstep Hr Hr)
    as (g1 & g2 & Hres & Hg1 & _).
  exists g1, g2. split; assumption.
Defined.

(** ** The shared grid of [resample_on_common_grid] *)





(** ** More on [calculate_integration_delta] *)

Section IntegrationMore.
Context {T : Type}.

Lemma assign_roles_swap (speed1 speed2 : list Q) (t1 t2 : Q) :
  ~ t1 == t2 ->
  assign_roles speed1 speed2 t1 t2 = assign_roles speed2 speed1 t2 t1.
Proof.
  intro Hne. unfold assign_roles.
  destruct (Qlt_bool t1 t2) eqn:E1, (Qlt_bool t2 t1) eqn:E2;
    try reflexivity.
  - apply Qlt_bool_iff in E1, E2. lra.
  - apply Qlt_bool_false_iff in E1, E2. exfalso. apply Hne. lra.
Qed.

Lemma scale_pointwise (a b : Q) (l : list Q) :
  a == b -> Forall2 Qeq (map (fun d => d * a) l) (map (fun d => d * b) l).
Proof.
  intro Hab. induction l as [|x l IH]; cbn; constructor; [|exact IH].
  rewrite Hab. reflexivity.
Qed.

(** X5.  Over one shared distance column and for two different lap
    times, [calculate_integration_delta] does not depend on the order in
    which the two laps are passed: swapping the frames together with their
    lap times gives the same raw delta and the same outcome. *)
Theorem integration_delta_order_independent (tel1 tel2 : DataFrame T)
    (time1_final time2_final : Q) :
  map Distance tel1 = map Distance tel2 ->
  ~ time1_final == time2_final ->
  delta_raw tel1 tel2 time1_final time2_final
  = delta_raw tel2 tel1 time2_final time1_final
  /\ same_series
       (calculate_integration_delta tel1 tel2 time1_final time2_final)
       (calculate_integration_delta tel2 tel1 time2_final time1_final).
Proof.
  intros Hd Hne.
  assert (delta_raw tel1 tel2 time1_final time2_final
          = delta_raw tel2 tel1 time2_final time1_final) as Hraw.
  { unfold delta_raw. rewrite Hd.
    rewrite (assign_roles_swap _ _ _ _ Hne). reflexivity. }
  split; [exact Hraw|].
  unfold calculate_integration_delta. rewrite <- Hraw.
  destruct (delta_raw tel1 tel2 time1_final time2_final) as [raw|e];
    cbn [bind same_series]; [|reflexivity].
  unfold rescale.
  destruct (Qlt_bool 0 (Qabs (last_of raw))); cbn [same_series];
    [|reflexivity].
  apply scale_pointwise.
  assert (Qabs (time1_final - time2_final)
          == Qabs (time2_final - time1_final)) as ->; [|reflexivity].
  rewrite <- (Qabs_opp (time1_final - time2_final)).
  assert (- (time1_final - time2_final) == time2_final - time1_final) as ->
    by ring.
  reflexivity.
Qed.

Lemma delta_loop_raises (ds ref_speed slow_speed : list Q) (i : nat)
    (idx : list nat) :
  In i idx -> segment_delta ds ref_speed slow_speed i = None ->
  forall acc, delta_loop ds ref_speed slow_speed idx acc = Raise IndexError.
Proof.
  intros Hin Hnone. induction idx as [|j idx IH]; intro acc; [destruct Hin|].
  cbn [delta_loop].
  destruct (segment_delta ds ref_speed slow_speed j) as [d|] eqn:E;
    [|reflexivity].
  apply IH. destruct Hin as [->|Hin]; [congruence|exact Hin].
Qed.

(** X6.  When the second frame has fewer rows than the first and the
    first has at least two, [calculate_integration_delta] raises
    [IndexError]: the segment loop runs over the first frame's segments
    and reads the second frame's speeds past their end. *)
Theorem short_second_frame_raises (tel1 tel2 : DataFrame T)
    (time1_final time2_final : Q) :
  (2 <= length tel1)%nat ->
  (length tel2 < length tel1)%nat ->
  calculate_integration_delta tel1 tel2 time1_final time2_final
  = Raise IndexError.
Proof.
  intros H2 Hlt. unfold calculate_integration_delta, delta_raw.
  set (speed1 := map kmh_to_ms (map Speed tel1)).
  set (speed2 := map kmh_to_ms (map Speed tel2)).
  set (ds := np_diff (map Distance tel1)).
  assert (length ds = pred (length tel1)) as Hds
    by (unfold ds; rewrite np_diff_length, length_map; reflexivity).
  assert (length speed2 = length tel2) as Hs2
    by (unfold speed2; rewrite !length_map; reflexivity).
  set (i := pred (length tel2)).
  assert (nth_error speed2 (S i) = None) as Hnone
    by (apply nth_error_None; unfold i; lia).
  rewrite (delta_loop_raises ds _ _ i); [reflexivity| |].
  - apply in_seq. unfold i. lia.
  - unfold segment_delta, assign_roles.
    destruct (Qlt_bool time1_final time2_final); cbn [fst snd];
      rewrite Hnone;
      repeat match goal with
             | |- context [match nth_error ?l ?k with _ => _ end] =>
                 destruct (nth_error l k)
             end; reflexivity.
Qed.

(** X7.  With equal lap times the real gap is 0, so whenever the raw
    cumulative delta ends away from 0 the returned series is 0 at every
    grid point, whatever the two speed traces are. *)
Theorem equal_lap_times_flatten_delta (tel1 tel2 : DataFrame T)
    (time1_final time2_final : Q) :
  time1_final == time2_final ->
  (length tel1 <= length tel2)%nat ->
  exists raw,
    delta_raw tel1 tel2 time1_final time2_final = Ok raw
    /\ (~ last_of raw == 0 ->
        exists delta,
          calculate_integration_delta tel1 tel2 time1_final time2_final
          = Ok delta
          /\ length delta = length raw
          /\ Forall (fun d => d == 0) delta).
Proof.
  intros Heq Hlen.
  destruct (delta_raw_total tel1 tel2 time1_final time2_final Hlen)
    as [raw Hraw].
  exists raw. split; [exact Hraw|]. intro Hnz.
  unfold calculate_integration_delta. rewrite Hraw. cbn [bind].
  rewrite (rescale_ok raw _ _ Hnz). eexists. split; [reflexivity|].
  split; [apply length_map|].
  apply Forall_map. apply Forall_forall. intros d _.
  assert (Qabs (time1_final - time2_final) == 0) as ->.
  { assert (time1_final - time2_final == 0) as -> by lra. reflexivity. }
  unfold Qdiv. ring.
Qed.

End IntegrationMore.

Lemma integration_delta_order_independent_witness :
  map Distance fast_grid = map Distance slow_grid
  /\ ~ 90 == 91
  /\ same_series (calculate_integration_delta fast_grid slow_grid 90 91)
                 (calculate_integration_delta slow_grid fast_grid 91 90).
Proof.
  assert (map Distance fast_grid = map Distance slow_grid) as Hd
    by reflexivity.
  assert (~ 90 == 91) as Hne by discriminate.
  split; [exact Hd|]. split; [exact Hne|].
  exact (proj2 (integration_delta_order_independent fast_grid slow_grid
                  90 91 Hd Hne)).
Defined.

Lemma short_second_frame_raises_witness :
  (2 <= length fast_grid)%nat
  /\ (length flat_grid < length fast_grid)%nat
  /\ calculate_integration_delta fast_grid flat_grid 90 91
     = Raise IndexError.
Proof.
  split; [cbn; lia|]. split; [cbn; lia|].
  apply short_second_frame_raises; cbn; lia.
Defined.

Lemma equal_lap_times_flatten_delta_witness :
  90 == 90
  /\ (length fast_grid <= length slow_grid)%nat
  /\ exists delta,
      calculate_integration_delta fast_grid slow_grid 90 90 = Ok delta
      /\ Forall (fun d => d == 0) delta.
Proof.
  split; [reflexivity|]. split; [cbn; lia|].
  destruct (equal_lap_times_flatten_delta fast_grid slow_grid 90 90)
    as (raw & Hraw & H); [reflexivity|cbn; lia|].
  vm_compute in Hraw. injection Hraw as <-.
  destruct H as (delta & Hd & _ & Hz).
  { intro Hz. vm_compute in Hz. discriminate Hz. }
  exists delta. split; assumption.
Defined.

Section IntegrationMonotone.
Context {T : Type}.

Lemma py_max_mono (a b c : Q) : a <= b -> py_max a c <= py_max b c.
Proof.
  intro Hab. unfold py_max.
  destruct (Qlt_bool a c) eqn:E1, (Qlt_bool b c) eqn:E2;
    try (apply Qlt_bool_iff in E1); try (apply Qlt_bool_iff in E2);
    try (apply Qlt_bool_false_iff in E1);
    try (apply Qlt_bool_false_iff in E2); lra.
Qed.

Lemma segment_time_antitone (d s0 s1 r0 r1 : Q) :
  0 <= d -> s0 <= r0 -> s1 <= r1 ->
  0 <= segment_time d s0 s1 - segment_time d r0 r1.
Proof.
  intros Hd H0 H1. unfold segment_time.
  set (A := py_max ((s0 + s1) / 2) (1 # 1000)).
  set (B := py_max ((r0 + r1) / 2) (1 # 1000)).
  assert (1 # 1000 <= A) as HA by apply py_max_lower.
  assert (A <= B) as HAB.
  { unfold A, B. apply py_max_mono.
    unfold Qdiv. apply Qmult_le_compat_r; [lra|discriminate]. }
  assert (d / A - d / B == d * (B - A) / (A * B)) as -> by (field; lra).
  apply Qdiv_nonneg.
  - apply Qmult_le_0_compat; lra.
  - apply Qmult_lt_0_compat; lra.
Qed.

Lemma np_diff_nonneg (l : list Q) :
  Sorted Qle l -> Forall (fun d => 0 <= d) (np_diff l).
Proof.
  rewrite np_diff_adjacent.
  induction l as [|a [|b l] IH]; intro Hs; cbn [adjacent]; try constructor.
  - inversion Hs as [|? ? _ Hhd]; subst. inversion Hhd; subst. lra.
  - apply IH. inversion Hs; assumption.
Qed.

Lemma sorted_snoc (l : list Q) (x : Q) :
  Sorted Qle l -> last_of l <= x -> l <> [] -> Sorted Qle (l ++ [x]).
Proof.
  unfold last_of. intros Hs Hx Hne.
  induction l as [|a l IH]; [congruence|].
  destruct l as [|b l].
  - cbn in *. repeat constructor. exact Hx.
  - inversion Hs as [|? ? Hs' Hhd]; subst. cbn [app].
    constructor.
    + apply IH; [exact Hs'|exact Hx|discriminate].
    + cbn [app]. inversion Hhd; subst. constructor. assumption.
Qed.

Lemma delta_loop_sorted (ds ref_speed slow_speed : list Q) (idx : list nat) :
  (forall i d, In i idx ->
     segment_delta ds ref_speed slow_speed i = Some d -> 0 <= d) ->
  forall acc raw,
    acc <> [] -> Sorted Qle acc ->
    delta_loop ds ref_speed slow_speed idx acc = Ok raw ->
    Sorted Qle raw.
Proof.
  induction idx as [|i idx IH]; intros Hseg acc raw Hne Hs H;
    cbn [delta_loop] in H.
  - injection H as <-. exact Hs.
  - destruct (segment_delta ds ref_speed slow_speed i) as [d|] eqn:E;
      [|discriminate].
    apply (IH (fun j dj Hj => Hseg j dj (or_intror Hj)) _ _) in H;
      [exact H|destruct acc; discriminate|].
    apply sorted_snoc; [exact Hs| |exact Hne].
    specialize (Hseg i d (or_introl eq_refl) E). lra.
Qed.

Lemma sorted_from_zero_nonneg (l : list Q) :
  Sorted Qle (0 :: l) -> Forall (fun d => 0 <= d) (0 :: l).
Proof.
  intro Hs. apply Sorted_StronglySorted in Hs;
    [|intros a b c; apply Qle_trans].
  inversion Hs as [|? ? _ Hall]; subst.
  constructor; [lra|exact Hall].
Qed.

Lemma scale_nonneg (k : Q) (l : list Q) :
  0 <= k -> Forall (fun d => 0 <= d) l ->
  Forall (fun d => 0 <= d) (map (fun d => d * k) l).
Proof.
  intros Hk H. apply Forall_map. eapply Forall_impl; [|exact H].
  cbn. intros d Hd. apply Qmult_le_0_compat; assumption.
Qed.

Lemma kmh_to_ms_mono (a b : Q) : a <= b -> kmh_to_ms a <= kmh_to_ms b.
Proof.
  intro H. unfold kmh_to_ms, Qdiv.
  apply Qmult_le_compat_r; [exact H|discriminate].
Qed.

Lemma nth_error_pointwise_le (s r : list Q) (i : nat) (a b : Q) :
  Forall2 Qle s r -> nth_error s i = Some a -> nth_error r i = Some b ->
  a <= b.
Proof.
  intro H. revert i. induction H as [|x y s r Hxy _ IH]; intros [|i] Ha Hb;
    cbn in *; try discriminate.
  - injection Ha as <-. injection Hb as <-. exact Hxy.
  - exact (IH i Ha Hb).
Qed.

Lemma roles_pointwise (tel1 tel2 : DataFrame T) (t1 t2 : Q) :
  slow_role_never_faster tel1 tel2 t1 t2 ->
  let roles := assign_roles (map kmh_to_ms (map Speed tel1))
                            (map kmh_to_ms (map Speed tel2)) t1 t2 in
  Forall2 Qle (snd roles) (fst roles).
Proof.
  unfold slow_role_never_faster, assign_roles. intro H.
  destruct (Qlt_bool t1 t2); cbn [fst snd];
    induction H as [|r1 r2 l1 l2 Hr _ IH]; cbn [map]; constructor;
    try exact IH; apply kmh_to_ms_mono; exact Hr.
Qed.

(** X8.  Over a grid whose distances do not decrease, when the trace in
    the slow role is at no grid point faster than the one in the reference
    role, the raw cumulative delta is computed, never decreases and is
    never negative; any series the function returns has the same two
    properties. *)
Theorem delta_never_decreases_when_slow_is_slower (tel1 tel2 : DataFrame T)
    (time1_final time2_final : Q) :
  Sorted Qle (map Distance tel1) ->
  slow_role_never_faster tel1 tel2 time1_final time2_final ->
  exists raw,
    delta_raw tel1 tel2 time1_final time2_final = Ok raw
    /\ Sorted Qle raw
    /\ Forall (fun d => 0 <= d) raw
    /\ forall delta,
        calculate_integration_delta tel1 tel2 time1_final time2_final
        = Ok delta ->
        Sorted Qle delta /\ Forall (fun d => 0 <= d) delta.
Proof.
  intros Hsorted Hslow.
  assert (length tel1 = length tel2) as Hlen
    by (exact (Forall2_length Hslow)).
  destruct (delta_raw_total tel1 tel2 time1_final time2_final) as [raw Hraw];
    [lia|].
  pose proof (roles_pointwise tel1 tel2 _ _ Hslow) as Hroles.
  cbn zeta in Hroles.
  assert (Sorted Qle raw) as Hs.
  { unfold delta_raw in Hraw.
    set (roles := assign_roles (map kmh_to_ms (map Speed tel1))
                               (map kmh_to_ms (map Speed tel2))
                               time1_final time2_final) in *.
    set (ds := np_diff (map Distance tel1)) in *.
    assert (forall i d, In i (seq 0 (length ds)) ->
              segment_delta ds (fst roles) (snd roles) i = Some d -> 0 <= d)
      as Hseg.
    { intros i d _ Hd. unfold segment_delta in Hd.
      destruct (nth_error (fst roles) i) as [r0|] eqn:E1; [|discriminate].
      destruct (nth_error (fst roles) (S i)) as [r1|] eqn:E2;
        [|discriminate].
      destruct (nth_error (snd roles) i) as [s0|] eqn:E3; [|discriminate].
      destruct (nth_error (snd roles) (S i)) as [s1|] eqn:E4;
        [|discriminate].
      destruct (nth_error ds i) as [dd|] eqn:E5; [|discriminate].
      injection Hd as <-.
      apply segment_time_antitone.
      - pose proof (np_diff_nonneg _ Hsorted) as Hnn.
        rewrite Forall_forall in Hnn. apply Hnn.
        eapply nth_error_In. exact E5.
      - exact (nth_error_pointwise_le _ _ i _ _ Hroles E3 E1).
      - exact (nth_error_pointwise_le _ _ (S i) _ _ Hroles E4 E2). }
    assert ([0] <> []) as Hne by discriminate.
    assert (Sorted Qle [0]) as H0 by (repeat constructor).
    exact (delta_loop_sorted ds (fst roles) (snd roles) _ Hseg [0] raw
             Hne H0 Hraw). }
  destruct (delta_raw_shape _ _ _ _ _ Hraw) as (ext & Hshape & _).
  assert (Forall (fun d => 0 <= d) raw) as Hnn
    by (rewrite Hshape in *; apply sorted_from_zero_nonneg; exact Hs).
  exists raw. split; [exact Hraw|]. split; [exact Hs|]. split; [exact Hnn|].
  intros delta Hdelta. unfold calculate_integration_delta in Hdelta.
  rewrite Hraw in Hdelta. cbn [bind] in Hdelta. unfold rescale in Hdelta.
  destruct (Qlt_bool 0 (Qabs (last_of raw))) eqn:E; [|discriminate].
  apply Qlt_bool_iff in E. injection Hdelta as <-.
  assert (0 <= Qabs (time1_final - time2_final) / Qabs (last_of raw)) as Hk
    by (apply Qdiv_nonneg; [apply Qabs_nonneg|exact E]).
  split; [apply scale_sorted; assumption|apply scale_nonneg; assumption].
Qed.

End IntegrationMonotone.

Lemma delta_never_decreases_when_slow_is_slower_witness :
  Sorted Qle (map Distance fast_grid)
  /\ slow_role_never_faster fast_grid slow_grid 90 91
  /\ exists delta,
      calculate_integration_delta fast_grid slow_grid 90 91 = Ok delta
      /\ Sorted Qle delta.
Proof.
  assert (Sorted Qle (map Distance fast_grid)) as Hs
    by (cbn; repeat (constructor; try (unfold Qle; cbn; lia))).
  assert (slow_role_never_faster fast_grid slow_grid 90 91) as Hslow
    by (unfold slow_role_never_faster;
        repeat (constructor; try (unfold Qle; cbn; lia))).
  split; [exact Hs|]. split; [exact Hslow|].
  destruct (delta_never_decreases_when_slow_is_slower fast_grid slow_grid
              90 91 Hs Hslow) as (raw & _ & _ & _ & H).
  eexists. split; [vm_compute; reflexivity|].
  apply H. vm_compute. reflexivity.
Defined.

(** ** The whole pipeline, [calculate_delta] *)



Section PipelineFacts.
Context {T : Type}.



End PipelineFacts.


(** * Properties of the export helpers *)

(** ** [calculate_sector_boundaries] *)

(** X10.  [calculate_sector_boundaries] raises [IndexError] on an empty
    distance array; on an array whose last value is not below its first it
    returns three boundaries in order, the first two inside the lap and the
    third on its last sample. *)
Theorem sector_boundaries_ordered (distances : list Q) :
  (distances = [] ->
   calculate_sector_boundaries distances = Raise IndexError)
  /\ (distances <> [] ->
      nth 0 distances 0 <= last_of distances ->
      exists b,
        calculate_sector_boundaries distances = Ok b
        /\ nth 0 distances 0 <= sector1_end b
        /\ sector1_end b <= sector2_end b
        /\ sector2_end b <= sector3_end b
        /\ sector3_end b = last_of distances).
Proof.
  split; [intros ->; reflexivity|].
  intros Hne Hle. destruct distances as [|first rest]; [congruence|].
  cbn [nth] in Hle. unfold calculate_sector_boundaries.
  eexists. split; [reflexivity|]. cbn [sector1_end sector2_end sector3_end].
  cbn [nth]. set (l := last_of (first :: rest)) in *.
  split; [lra|]. split; [lra|]. split; [lra|reflexivity].
Qed.

Lemma sector_boundaries_ordered_witness :
  lap_distances <> []
  /\ nth 0 lap_distances 0 <= last_of lap_distances
  /\ exists b,
      calculate_sector_boundaries lap_distances = Ok b
      /\ sector1_end b <= sector2_end b.
Proof.
  assert (lap_distances <> []) as Hne by discriminate.
  assert (nth 0 lap_distances 0 <= last_of lap_distances) as Hle
    by (vm_compute; discriminate).
  split; [exact Hne|]. split; [exact Hle|].
  destruct (proj2 (sector_boundaries_ordered lap_distances) Hne Hle)
    as (b & Hb & _ & H12 & _).
  exists b. split; assumption.
Defined.

(** ** [F1PlotStyle.get_driver_color] *)

(** X11.  [get_driver_color] never raises, for any driver code and any
    integer index, negative ones included: it returns a team colour or one
    of the five default colours, and the index matters only modulo 5. *)
Theorem get_driver_color_total (driver : String.string) (index : Z) :
  (exists color,
      F1PlotStyle.get_driver_color driver index = Ok color
      /\ (In color (map snd F1PlotStyle.TEAM_COLORS)
          \/ In color F1PlotStyle.DEFAULT_COLORS))
  /\ F1PlotStyle.get_driver_color driver (index + 5)
     = F1PlotStyle.get_driver_color driver index.
Proof.
  unfold F1PlotStyle.get_driver_color. split.
  - destruct (F1PlotStyle.lookup driver F1PlotStyle.TEAM_COLORS) as [c|] eqn:E.
    + exists c. split; [reflexivity|]. left.
      revert E. generalize F1PlotStyle.TEAM_COLORS as d.
      induction d as [|[k v] d IH]; cbn; intro E; [discriminate|].
      destruct (String.eqb driver k); [injection E as <-; left; reflexivity|].
      right. apply IH. exact E.
    + change (Z.of_nat (length F1PlotStyle.DEFAULT_COLORS)) with 5%Z.
      pose proof (Z.mod_pos_bound index 5 ltac:(lia)) as Hb.
      destruct (nth_error F1PlotStyle.DEFAULT_COLORS (Z.to_nat (index mod 5)))
        as [c|] eqn:En.
      * exists c. split; [reflexivity|]. right.
        eapply nth_error_In. exact En.
      * apply nth_error_None in En. cbn [F1PlotStyle.DEFAULT_COLORS length] in En.
        lia.
  - destruct (F1PlotStyle.lookup driver F1PlotStyle.TEAM_COLORS);
      [reflexivity|].
    change (Z.of_nat (length F1PlotStyle.DEFAULT_COLORS)) with 5%Z.
    replace ((index + 5) mod 5)%Z with (index mod 5)%Z; [reflexivity|].
    rewrite <- (Z.add_mod_idemp_r index 5 5) by lia.
    rewrite Z.mod_same by lia. rewrite Z.add_0_r. reflexivity.
Qed.

(** ** [np.argmin] and [create_position_markers] *)

Lemma argmin_scan_spec (a : list Q) :
  forall best_i best i,
    (argmin_scan best_i best i a = best_i
     /\ forall y, In y a -> best <= y)
    \/ exists k x,
        argmin_scan best_i best i a = (i + k)%nat
        /\ nth_error a k = Some x
        /\ x < best
        /\ forall y, In y a -> x <= y.
Proof.
  induction a as [|x a IH]; intros best_i best i; cbn [argmin_scan].
  - left. split; [reflexivity|intros y []].
  - destruct (Qlt_bool x best) eqn:E.
    + apply Qlt_bool_iff in E.
      destruct (IH i x (S i)) as [[Hr Hmin]|(k & x' & Hr & Hk & Hlt & Hmin)].
      * right. exists 0%nat, x. rewrite Hr, Nat.add_0_r.
        split; [reflexivity|]. split; [reflexivity|]. split; [exact E|].
        intros y [<-|Hy]; [lra|apply Hmin; exact Hy].
      * right. exists (S k), x'. rewrite Hr.
        split; [lia|]. split; [exact Hk|]. split; [lra|].
        intros y [<-|Hy]; [lra|apply Hmin; exact Hy].
    + apply Qlt_bool_false_iff in E.
      destruct (IH best_i best (S i))
        as [[Hr Hmin]|(k & x' & Hr & Hk & Hlt & Hmin)].
      * left. split; [exact Hr|].
        intros y [<-|Hy]; [exact E|apply Hmin; exact Hy].
      * right. exists (S k), x'. rewrite Hr.
        split; [lia|]. split; [exact Hk|]. split; [exact Hlt|].
        intros y [<-|Hy]; [lra|apply Hmin; exact Hy].
Qed.

Lemma np_argmin_spec (a : list Q) :
  a <> [] ->
  exists m,
    nth_error a (np_argmin a) = Some m /\ forall y, In y a -> m <= y.
Proof.
  intro Hne. destruct a as [|x a]; [congruence|]. unfold np_argmin.
  destruct (argmin_scan_spec a 0 x 1)
    as [[-> Hmin]|(k & x' & -> & Hk & Hlt & Hmin)].
  - exists x. split; [reflexivity|].
    intros y [<-|Hy]; [lra|apply Hmin; exact Hy].
  - exists x'. split; [exact Hk|].
    intros y [<-|Hy]; [lra|apply Hmin; exact Hy].
Qed.

Lemma nearest_index_spec (distances : list Q) (dist : Q) :
  distances <> [] ->
  exists d,
    nth_error distances (nearest_index distances dist) = Some d
    /\ forall d', In d' distances -> Qabs (d - dist) <= Qabs (d' - dist).
Proof.
  intro Hne. unfold nearest_index.
  destruct (np_argmin_spec (map (fun d => Qabs (d - dist)) distances))
    as (m & Hm & Hmin); [destruct distances; [congruence|discriminate]|].
  rewrite nth_error_map in Hm.
  destruct (nth_error distances _) as [d|]; [|discriminate].
  cbn in Hm. injection Hm as <-. exists d. split; [reflexivity|].
  intros d' Hd'. apply Hmin. apply in_map_iff. exists d'. split;
    [reflexivity|exact Hd'].
Qed.




(** ** [generate_camera_waypoints] *)

Lemma py_index_in_range (a : list Q) (i : Z) :
  (0 <= i < Z.of_nat (length a))%Z ->
  exists v, py_index a i = Ok v /\ nth_error a (Z.to_nat i) = Some v.
Proof.
  intro Hi. unfold py_index.
  assert ((i <? 0)%Z = false) as -> by (apply Z.ltb_ge; lia).
  assert ((0 <=? i)%Z = true) as -> by (apply Z.leb_le; lia).
  assert ((i <? Z.of_nat (length a))%Z = true) as -> by (apply Z.ltb_lt; lia).
  cbn [andb].
  destruct (nth_error a (Z.to_nat i)) as [v|] eqn:E.
  - exists v. split; reflexivity.
  - apply nth_error_None in E. lia.
Qed.

Lemma linspace_point_bounds (stop : Q) (n i : nat) :
  0 <= stop -> (i <= n)%nat ->
  let v := if Nat.eqb i n then (if Nat.eqb n 0 then 0 else stop)
           else 0 + inject_Z (Z.of_nat i)
                    * ((stop - 0) / inject_Z (Z.of_nat n)) in
  0 <= v <= stop.
Proof.
  intros Hstop Hi. cbn zeta.
  destruct (Nat.eqb i n) eqn:E.
  - destruct (Nat.eqb n 0); lra.
  - apply Nat.eqb_neq in E.
    assert (0 < inject_Z (Z.of_nat n)) as Hn.
    { change 0 with (inject_Z 0). rewrite <- Zlt_Qlt. lia. }
    assert (0 <= inject_Z (Z.of_nat i)) as Hi0.
    { change 0 with (inject_Z 0). rewrite <- Zle_Qle. lia. }
    assert (inject_Z (Z.of_nat i) <= inject_Z (Z.of_nat n)) as Hin
      by (rewrite <- Zle_Qle; lia).
    set (qi := inject_Z (Z.of_nat i)) in *.
    set (qn := inject_Z (Z.of_nat n)) in *.
    assert (0 <= (stop - 0) / qn) as Hx by (apply Qdiv_nonneg; lra).
    assert (qn * ((stop - 0) / qn) == stop) as Hfull by (field; lra).
    assert (qi * ((stop - 0) / qn) <= qn * ((stop - 0) / qn)) as Hle
      by (apply Qmult_le_compat_r; assumption).
    assert (0 <= qi * ((stop - 0) / qn)) as Hge
      by (apply Qmult_le_0_compat; assumption).
    lra.
Qed.

Lemma linspace_int_in_range (stop : Z) (num : nat) :
  (0 <= stop)%Z ->
  Forall (fun z => (0 <= z <= stop)%Z) (linspace_int stop num).
Proof.
  intro Hstop. unfold linspace_int. destruct num as [|n]; [constructor|].
  unfold np_linspace. rewrite map_map. apply Forall_map.
  apply Forall_forall. intros i Hi. apply in_seq in Hi.
  assert (0 <= inject_Z stop) as Hs.
  { change 0 with (inject_Z 0). rewrite <- Zle_Qle. exact Hstop. }
  destruct (linspace_point_bounds (inject_Z stop) n i Hs) as [Hlo Hhi];
    [lia|].
  cbn zeta in Hlo, Hhi. split.
  - apply (Qfloor_resp_le 0) in Hlo. exact Hlo.
  - apply Qfloor_resp_le in Hhi. rewrite Qfloor_Z in Hhi. exact Hhi.
Qed.

Lemma linspace_int_length (stop : Z) (num : nat) :
  length (linspace_int stop num) = num.
Proof.
  unfold linspace_int. destruct num as [|n]; [reflexivity|].
  unfold np_linspace. rewrite !length_map, length_seq. reflexivity.
Qed.

Lemma linspace_int_first (stop : Z) (n : nat) :
  nth_error (linspace_int stop (S n)) 0 = Some 0%Z.
Proof.
  unfold linspace_int, np_linspace. cbn [seq map nth_error].
  destruct n as [|n]; reflexivity.
Qed.

Lemma linspace_int_last (stop : Z) (n : nat) :
  nth_error (linspace_int stop (S (S n))) (S n) = Some stop.
Proof.
  unfold linspace_int, np_linspace.
  rewrite nth_error_map, nth_error_map.
  rewrite (nth_error_nth' _ 0%nat) by (rewrite length_seq; lia).
  rewrite seq_nth by lia. cbn [Nat.add option_map].
  rewrite Nat.eqb_refl. cbn [Nat.eqb]. rewrite Qfloor_Z. reflexivity.
Qed.

Lemma collect_forall2 {A B : Type} (f : A -> result B) (l : list A) :
  (forall a, In a l -> exists b, f a = Ok b) ->
  exists bs, collect f l = Ok bs /\ Forall2 (fun a b => f a = Ok b) l bs.
Proof.
  induction l as [|a l IH]; intro H; cbn [collect].
  - exists []. split; [reflexivity|constructor].
  - destruct (H a (or_introl eq_refl)) as (b & Hb).
    destruct IH as (bs & Hbs & Hall);
      [intros a' Ha'; apply H; right; exact Ha'|].
    rewrite Hb, Hbs. cbn [bind]. exists (b :: bs).
    split; [reflexivity|constructor; assumption].
Qed.

Lemma forall2_nth_error {A B : Type} (R : A -> B -> Prop) (l : list A)
    (l' : list B) (i : nat) (a : A) :
  Forall2 R l l' -> nth_error l i = Some a ->
  exists b, nth_error l' i = Some b /\ R a b.
Proof.
  intro H. revert i. induction H as [|x y l l' Hxy _ IH]; intros [|i] Hi;
    cbn in *; try discriminate.
  - injection Hi as <-. exists y. split; [reflexivity|exact Hxy].
  - exact (IH i Hi).
Qed.

Lemma waypoint_at_in_range (distances delta : list Q) (idx : Z) :
  (0 <= idx < Z.of_nat (length distances))%Z ->
  (length distances <= length delta)%nat ->
  exists w,
    waypoint_at distances delta idx = Ok w
    /\ nth_error distances (Z.to_nat idx) = Some (waypoint_distance w)
    /\ nth_error delta (Z.to_nat idx) = Some (waypoint_delta w)
    /\ (camera_style w, camera_distance w)
       = camera_for (Qabs (waypoint_delta w))
    /\ (focus_point w = leader <-> waypoint_delta w < 0).
Proof.
  intros Hi Hlen. unfold waypoint_at.
  destruct (py_index_in_range delta idx) as (d & -> & Hd); [lia|].
  destruct (py_index_in_range distances idx Hi) as (x & -> & Hx).
  cbn [bind]. eexists. split; [reflexivity|].
  cbn [waypoint_distance waypoint_delta camera_style camera_distance
       focus_point].
  split; [exact Hx|]. split; [exact Hd|]. split.
  - destruct (camera_for (Qabs d)); reflexivity.
  - destruct (Qlt_bool d 0) eqn:E.
    + apply Qlt_bool_iff in E. split; [intros _; exact E|reflexivity].
    + apply Qlt_bool_false_iff in E. split; [discriminate|intro; lra].
Qed.

(** X13.  For a non-empty distance array and a delta array at least as
    long, [generate_camera_waypoints] returns exactly [num_waypoints]
    waypoints.  Each one sits on a sample of the lap and carries that
    sample's delta, its camera style and distance follow the magnitude of
    that delta, and its focus is the leader exactly when the delta is
    negative.  With two waypoints or more the first one is on the first
    sample and the last one on the last sample. *)
Theorem camera_waypoints_sit_on_samples (distances delta : list Q)
    (num_waypoints : nat) :
  distances <> [] ->
  (length distances <= length delta)%nat ->
  exists waypoints,
    generate_camera_waypoints distances delta num_waypoints = Ok waypoints
    /\ length waypoints = num_waypoints
    /\ Forall (fun w =>
                 (exists i,
                     nth_error distances i = Some (waypoint_distance w)
                     /\ nth_error delta i = Some (waypoint_delta w))
                 /\ (camera_style w, camera_distance w)
                    = camera_for (Qabs (waypoint_delta w))
                 /\ (focus_point w = leader <-> waypoint_delta w < 0))
              waypoints
    /\ ((2 <= num_waypoints)%nat ->
        exists first_w last_w,
          nth_error waypoints 0 = Some first_w
          /\ nth_error waypoints (pred num_waypoints) = Some last_w
          /\ waypoint_distance first_w = nth 0 distances 0
          /\ waypoint_distance last_w = last_of distances).
Proof.
  intros Hne Hlen. unfold generate_camera_waypoints.
  set (stop := (Z.of_nat (length distances) - 1)%Z).
  assert (0 <= stop)%Z as Hstop
    by (unfold stop; destruct distances; [congruence|cbn [length]; lia]).
  pose proof (linspace_int_in_range stop num_waypoints Hstop) as Hrange.
  rewrite Forall_forall in Hrange.
  assert (forall idx, In idx (linspace_int stop num_waypoints) ->
            (0 <= idx < Z.of_nat (length distances))%Z) as Hidx
    by (intros idx Hin; specialize (Hrange idx Hin); unfold stop in Hrange;
        lia).
  destruct (collect_forall2 (waypoint_at distances delta)
              (linspace_int stop num_waypoints)) as (wps & Hwps & Hall).
  { intros idx Hin.
    destruct (waypoint_at_in_range distances delta idx (Hidx idx Hin) Hlen)
      as (w & Hw & _). exists w. exact Hw. }
  exists wps. split; [exact Hwps|].
  assert (length wps = num_waypoints) as Hl.
  { rewrite <- (Forall2_length Hall). apply linspace_int_length. }
  split; [exact Hl|]. split.
  - apply Forall_forall. intros w Hw.
    apply In_nth_error in Hw. destruct Hw as [k Hk].
    assert (exists idx, nth_error (linspace_int stop num_waypoints) k
                        = Some idx /\ waypoint_at distances delta idx = Ok w)
      as (idx & Hik & Hwi).
    { clear - Hall Hk. revert k Hk.
      induction Hall as [|a b l l' Hab _ IH]; intros [|k] Hk; cbn in *;
        try discriminate.
      - injection Hk as <-. exists a. split; [reflexivity|exact Hab].
      - exact (IH k Hk). }
    destruct (waypoint_at_in_range distances delta idx
                (Hidx idx (nth_error_In _ _ Hik)) Hlen)
      as (w' & Hw' & Hx & Hd & Hc & Hf).
    rewrite Hwi in Hw'. injection Hw' as <-.
    split; [exists (Z.to_nat idx); split; assumption|]. split; assumption.
  - intro H2. destruct num_waypoints as [|[|n]]; try lia.
    destruct (forall2_nth_error _ _ _ 0 0%Z Hall (linspace_int_first stop _))
      as (w0 & Hw0 & Hf0).
    destruct (forall2_nth_error _ _ _ (S n) stop Hall
                (linspace_int_last stop n)) as (wl & Hwl & Hfl).
    exists w0, wl. split; [exact Hw0|]. split; [exact Hwl|].
    destruct (waypoint_at_in_range distances delta 0) as (w & Hw & Hx & _);
      [lia|exact Hlen|].
    rewrite Hf0 in Hw. injection Hw as <-.
    destruct (waypoint_at_in_range distances delta stop)
      as (w' & Hw' & Hx' & _); [unfold stop; lia|exact Hlen|].
    rewrite Hfl in Hw'. injection Hw' as <-.
    split.
    + destruct distances as [|d0 ds]; [congruence|].
      cbn in Hx. injection Hx as <-. reflexivity.
    + unfold last_of. rewrite last_as_nth.
      replace (Z.to_nat stop) with (pred (length distances)) in Hx'
        by (unfold stop; lia).
      apply nth_error_nth with (d := 0) in Hx'. rewrite Hx'. reflexivity.
Qed.

Lemma camera_waypoints_sit_on_samples_witness :
  lap_distances <> []
  /\ (length lap_distances <= length lap_delta)%nat
  /\ exists waypoints,
      generate_camera_waypoints lap_distances lap_delta 20 = Ok waypoints
      /\ length waypoints = 20%nat.
Proof.
  assert (lap_distances <> []) as Hne by discriminate.
  assert (length lap_distances <= length lap_delta)%nat as Hlen
    by (cbn; lia).
  split; [exact Hne|]. split; [exact Hlen|].
  destruct (camera_waypoints_sit_on_samples lap_distances lap_delta 20
              Hne Hlen) as (wps & Hw & Hl & _).
  exists wps. split; assumption.
Defined.

(** ** [identify_speed_zones] *)

Lemma ZoneType_eqb_false (a b : ZoneType) :
  ZoneType_eqb a b = false -> a <> b.
Proof. destruct a, b; cbn; intros H E; discriminate. Qed.

Lemma sorted_snoc_rel {A : Type} (R : A -> A -> Prop) (l : list A) (a b : A) :
  Sorted R (l ++ [a]) -> R a b -> Sorted R ((l ++ [a]) ++ [b]).
Proof.
  intros Hs Hab. induction l as [|x l IH]; cbn [app] in *.
  - repeat constructor. exact Hab.
  - inversion Hs as [|? ? Hs' Hhd]; subst. constructor.
    + apply IH. exact Hs'.
    + destruct l as [|y l]; cbn [app] in *;
        inversion Hhd; subst; constructor; assumption.
Qed.

Section SpeedZoneFacts.
Variables high low first_distance : Q.
Variable distances : list Q.

Lemma zone_step_keeps_invariant (state : list SpeedZone * option OpenZone)
    (entry : nat * Q) :
  zone_invariant high low first_distance state ->
  zone_invariant high low first_distance
                 (zone_step high low distances state entry).
Proof.
  intros [[current Hcur] Hinv]. destruct state as [zones cur].
  cbn [snd] in Hcur. subst cur. destruct entry as [i speed].
  unfold zone_step. cbn [snd fst].
  destruct (ZoneType_eqb (open_type current) (classify_speed high low speed))
    eqn:E.
  - split; [exists current; reflexivity|exact Hinv].
  - apply ZoneType_eqb_false in E.
    split; [eexists; reflexivity|]. intro e.
    destruct (Hinv (nth (pred i) distances 0)) as (Hs & Ht & z & Hz & Hstart).
    unfold zones_of in *. cbn [fst snd] in *.
    split; [|split].
    + apply sorted_snoc_rel; [exact Hs|]. exact E.
    + apply Forall_app. split; [exact Ht|].
      constructor; [reflexivity|constructor].
    + exists z. split; [|exact Hstart].
      destruct (zones ++ _) as [|z0 l]; [discriminate|exact Hz].
Qed.

Lemma zone_fold_keeps_invariant (entries : list (nat * Q)) :
  forall state,
    zone_invariant high low first_distance state ->
    zone_invariant high low first_distance
      (fold_left (zone_step high low distances) entries state).
Proof.
  induction entries as [|entry entries IH]; intros state H; cbn [fold_left];
    [exact H|].
  apply IH. apply zone_step_keeps_invariant. exact H.
Qed.

End SpeedZoneFacts.

Lemma summary_avg_speed_length (summary : list SummaryRow) :
  length (summary_avg_speed summary) = length summary.
Proof.
  unfold summary_avg_speed. rewrite map2_length_same; rewrite !length_map;
    reflexivity.
Qed.

(** X14.  For a non-empty summary frame on which both percentile calls
    return, [identify_speed_zones] returns at least one zone; consecutive
    zones have different types; the first zone starts on the first sample
    and the last zone ends on the last sample; and the speed stored with a
    zone, the one at which the zone was entered, falls in the zone's
    class. *)
Theorem speed_zones_tile_the_lap (percentile : list Q -> Q -> result Q)
    (summary : list SummaryRow) (high low : Q) :
  summary <> [] ->
  percentile (summary_avg_speed summary) 75 = Ok high ->
  percentile (summary_avg_speed summary) 25 = Ok low ->
  exists zones first_zone last_zone,
    identify_speed_zones percentile summary = Ok zones
    /\ Sorted zone_types_differ zones
    /\ hd_error zones = Some first_zone
    /\ start_distance first_zone = nth 0 (map Summary_Distance summary) 0
    /\ last zones first_zone = last_zone
    /\ end_distance last_zone = last_of (map Summary_Distance summary)
    /\ Forall (fun z => zone_type z
                        = classify_speed high low (avg_speed z)) zones.
Proof.
  intros Hne Hhigh Hlow. unfold identify_speed_zones.
  rewrite Hhigh, Hlow. cbn [bind].
  set (distances := map Summary_Distance summary).
  set (avg := summary_avg_speed summary).
  assert (length avg = length summary) as Hlen
    by apply summary_avg_speed_length.
  destruct avg as [|a0 avg'] eqn:Eavg;
    [destruct summary; [congruence|discriminate Hlen]|].
  cbn [length seq combine fold_left].
  set (state1 := zone_step high low distances ([], None) (0%nat, a0)).
  assert (zone_invariant high low (nth 0 distances 0) state1) as H1.
  { unfold state1, zone_step. cbn [snd fst].
    split; [eexists; reflexivity|]. intro e.
    unfold zones_of. cbn [fst snd app].
    split; [repeat constructor|]. split; [repeat constructor|].
    eexists. split; reflexivity. }
  pose proof (zone_fold_keeps_invariant high low (nth 0 distances 0)
                distances (combine (seq 1 (length avg')) avg') state1 H1)
    as [[current Hcur] Hinv].
  set (final := fold_left (zone_step high low distances)
                          (combine (seq 1 (length avg')) avg') state1) in *.
  destruct (Hinv (last_of distances)) as (Hs & Ht & z & Hz & Hstart).
  exists (zones_of final (last_of distances)), z,
         (close_zone current (last_of distances)).
  split; [reflexivity|]. split; [exact Hs|]. split; [exact Hz|].
  split; [exact Hstart|]. split; [|split; [reflexivity|exact Ht]].
  unfold zones_of. rewrite Hcur. apply last_last.
Qed.

Lemma speed_zones_tile_the_lap_witness :
  lap_summary <> []
  /\ fixed_thresholds (summary_avg_speed lap_summary) 75 = Ok 150
  /\ fixed_thresholds (summary_avg_speed lap_summary) 25 = Ok 100
  /\ exists zones,
      identify_speed_zones fixed_thresholds lap_summary = Ok zones
      /\ Sorted zone_types_differ zones.
Proof.
  assert (lap_summary <> []) as Hne by discriminate.
  split; [exact Hne|]. split; [reflexivity|]. split; [reflexivity|].
  destruct (speed_zones_tile_the_lap fixed_thresholds lap_summary 150 100
              Hne eq_refl eq_refl) as (zones & _ & _ & Hz & Hs & _).
  exists zones. split; assumption.
Defined.

(** * Further properties of [calculate_custom_time] *)

Section CustomTimeMore.
Context {T : Type}.


Lemma running_all_zero (l : list Q) :
  Forall (fun x => x == 0) l ->
  forall acc, acc == 0 -> Forall (fun x => x == 0) (running acc l).
Proof.
  induction 1 as [|x l Hx _ IH]; intros acc Hacc; cbn [running];
    constructor.
  - rewrite Hacc, Hx. reflexivity.
  - apply IH. rewrite Hacc, Hx. reflexivity.
Qed.

Lemma stationary_segments (d0 : Q) (tel : DataFrame T) :
  Forall (fun r => Distance r == d0) tel ->
  Forall (fun dt => dt == 0) (adjacent segment_dt tel).
Proof.
  induction tel as [|r0 [|r1 tel] IH]; intro H; cbn [adjacent];
    try constructor.
  - inversion H as [|? ? H0 H']; subst. inversion H' as [|? ? H1 _]; subst.
    unfold segment_dt. rewrite H0, H1. unfold Qdiv. ring.
  - apply IH. inversion H; assumption.
Qed.

(** X16.  For a non-empty trace whose distance never changes the raw
    integrated time is 0, the rescaling to the lap time is skipped, and the
    function returns a [Time] column that is 0 at every sample, whatever
    lap time it is given. *)
Theorem stationary_trace_gets_zero_time (tel : DataFrame T)
    (d0 real_laptime : Q) :
  tel <> [] ->
  Forall (fun r => Distance r == d0) tel ->
  exists res,
    calculate_custom_time tel real_laptime = Ok res
    /\ length res = length tel
    /\ Forall (fun t => t == 0) (map Time res).
Proof.
  intros Hne Hd. unfold calculate_custom_time.
  assert (Forall (fun t => t == 0) (custom_time tel)) as Hz.
  { unfold custom_time, np_cumsum. constructor; [reflexivity|].
    apply running_all_zero; [|reflexivity].
    rewrite time_differentials_adjacent.
    apply (stationary_segments d0). exact Hd. }
  assert (scaled_time tel real_laptime = custom_time tel) as Hs.
  { unfold scaled_time.
    assert (Qlt_bool 0 (last_of (custom_time tel)) = false) as ->;
      [|reflexivity].
    apply Qlt_bool_false_iff. rewrite (last_all_zero _ Hz). discriminate. }
  rewrite Hs.
  assert (length (custom_time tel) = length tel) as Hl
    by (rewrite custom_time_length; destruct tel; cbn; congruence).
  destruct (set_time_columns tel _ Hl) as (res & Hres & HD & _ & HT).
  exists res. split; [exact Hres|].
  split; [rewrite <- (length_map Distance res), HD, length_map; reflexivity|].
  rewrite HT. exact Hz.
Qed.

End CustomTimeMore.


Lemma stationary_trace_gets_zero_time_witness :
  parked_trace <> []
  /\ Forall (fun r => Distance r == 40) parked_trace
  /\ exists res,
      calculate_custom_time parked_trace 90 = Ok res
      /\ Forall (fun t => t == 0) (map Time res).
Proof.
  assert (parked_trace <> []) as Hne by discriminate.
  assert (Forall (fun r => Distance r == 40) parked_trace) as Hd
    by (repeat constructor).
  split; [exact Hne|]. split; [exact Hd|].
  destruct (stationary_trace_gets_zero_time parked_trace 40 90 Hne Hd)
    as (res & Hres & _ & Hz).
  exists res. split; assumption.
Defined.

(** ** [find_overtaking_zones] *)

Lemma py_max_left (a b : Q) : a <= py_max a b.
Proof.
  unfold py_max. destruct (Qlt_bool a b) eqn:E.
  - apply Qlt_bool_iff in E. lra.
  - lra.
Qed.

Lemma fold_py_max_upper (l : list Q) :
  forall x, x <= fold_left py_max l x
            /\ forall y, In y l -> y <= fold_left py_max l x.
Proof.
  induction l as [|a l IH]; intro x; cbn [fold_left].
  - split; [lra|intros y []].
  - destruct (IH (py_max x a)) as [Hx Hl]. split.
    + pose proof (py_max_left x a). lra.
    + intros y [<-|Hy]; [|apply Hl; exact Hy].
      pose proof (py_max_lower x a). lra.
Qed.

Lemma np_max_upper (l : list Q) (y : Q) :
  In y l -> exists m, np_max l = Ok m /\ y <= m.
Proof.
  intro Hy. destruct l as [|x l]; [destruct Hy|].
  unfold np_max. eexists. split; [reflexivity|].
  destruct (fold_py_max_upper l x) as [Hx Hl].
  destruct Hy as [<-|Hy]; [exact Hx|apply Hl; exact Hy].
Qed.

Lemma sorted_nth_lt (l : list Q) :
  StronglySorted Qlt l ->
  forall i j, (i < j < length l)%nat -> nth i l 0 < nth j l 0.
Proof.
  induction 1 as [|a l Hs IH Hall]; intros i j Hij; [cbn in Hij; lia|].
  destruct j as [|j]; [lia|]. destruct i as [|i]; cbn [nth].
  - rewrite Forall_forall in Hall. apply Hall. apply nth_In.
    cbn [length] in Hij. lia.
  - apply IH. cbn [length] in Hij. lia.
Qed.

Lemma nearest_index_exact (distances : list Q) (k : nat) :
  StronglySorted Qlt distances -> (k < length distances)%nat ->
  nearest_index distances (nth k distances 0) = k.
Proof.
  intros Hs Hk.
  destruct (nearest_index_spec distances (nth k distances 0))
    as (d & Hd & Hnear); [destruct distances; [cbn in Hk; lia|discriminate]|].
  set (idx := nearest_index distances (nth k distances 0)) in *.
  assert (idx < length distances)%nat as Hidx
    by (apply nth_error_Some; congruence).
  apply nth_error_nth with (d := 0) in Hd.
  specialize (Hnear (nth k distances 0) (nth_In _ _ Hk)).
  assert (Qabs (nth k distances 0 - nth k distances 0) == 0) as Hz.
  { assert (nth k distances 0 - nth k distances 0 == 0) as -> by ring.
    reflexivity. }
  rewrite Hz in Hnear. pose proof (Qabs_nonneg (d - nth k distances 0)) as Hnn.
  assert (d == nth k distances 0) as Heq.
  { assert (Qabs (d - nth k distances 0) == 0) as H0 by lra.
    revert H0. apply Qabs_case; intros; lra. }
  destruct (Nat.lt_trichotomy idx k) as [Hlt|[->|Hgt]]; [|reflexivity|].
  - pose proof (sorted_nth_lt _ Hs idx k ltac:(lia)) as H. rewrite Hd in H.
    lra.
  - pose proof (sorted_nth_lt _ Hs k idx ltac:(lia)) as H. rewrite Hd in H.
    lra.
Qed.

Lemma np_gradient_ok (f x : list Q) :
  length x = length f -> (2 <= length x)%nat ->
  exists g, np_gradient f x = Ok g /\ length g = length f.
Proof.
  intros Hlen H2. unfold np_gradient.
  rewrite (proj2 (Nat.eqb_eq _ _) Hlen). cbn [negb].
  destruct (np_diff x) as [|d0 tl] eqn:E.
  - apply (f_equal (@length Q)) in E. rewrite np_diff_length in E.
    cbn in E. lia.
  - eexists. split; [reflexivity|]. rewrite length_map, length_seq.
    reflexivity.
Qed.

Section OvertakingLoop.
Variables (delta distances delta_gradient : list Q) (threshold : Q).
Hypothesis Hsorted : StronglySorted Qlt distances.
Hypothesis Hlen_delta : length delta = length distances.
Hypothesis Hlen_grad : length delta_gradient = length distances.

Lemma closed_zone_ok (k i : nat) :
  (k < i < length distances)%nat ->
  is_significant threshold (nth k delta_gradient 0) = true ->
  exists z,
    closed_zone delta distances delta_gradient (nth k distances 0) i = Ok z
    /\ overtaking_zone_ok delta distances threshold z.
Proof.
  intros Hki Hsig. unfold closed_zone.
  rewrite (nearest_index_exact distances k Hsorted) by lia.
  pose proof (sorted_nth_lt _ Hsorted k i Hki) as Hlt.
  destruct (np_max_upper
              (masked_gradient distances delta_gradient (nth k distances 0)
                               (nth i distances 0))
              (Qabs (nth k delta_gradient 0))) as (m & -> & Hm).
  { unfold masked_gradient.
    apply in_map_iff. exists (nth k distances 0, nth k delta_gradient 0).
    split; [reflexivity|]. apply filter_In. split.
    - rewrite <- (combine_nth distances delta_gradient k 0 0) by congruence.
      apply nth_In. rewrite length_combine. lia.
    - cbn [fst]. apply andb_true_intro. split; apply Qle_bool_iff; lra. }
  cbn [bind]. eexists. split; [reflexivity|].
  unfold overtaking_zone_ok.
  cbn [zone_start_distance zone_end_distance delta_change intensity].
  split; [exact Hlt|]. split.
  - unfold is_significant in Hsig. apply Qlt_bool_iff in Hsig. lra.
  - exists k, i. repeat split; try reflexivity; lia.
Qed.

(** What the loop keeps true before it reads index [s]. *)
Lemma overtaking_fold_ok (sigs : list bool) :
  forall s zones in_zone zone_start,
    (s + length sigs = length distances)%nat ->
    (forall j, (j < length sigs)%nat ->
       nth j sigs false
       = is_significant threshold (nth (s + j) delta_gradient 0)) ->
    Forall (overtaking_zone_ok delta distances threshold) zones ->
    (in_zone = true ->
     exists k, (k < s)%nat /\ zone_start = nth k distances 0
               /\ is_significant threshold (nth k delta_gradient 0) = true) ->
    exists final,
      fold_left (overtaking_step delta distances delta_gradient)
                (combine (seq s (length sigs)) sigs)
                (Ok (zones, in_zone, zone_start))
      = Ok final
      /\ Forall (overtaking_zone_ok delta distances threshold)
                (fst (fst final)).
Proof.
  induction sigs as [|sig sigs IH]; intros s zones in_zone zone_start
                                           Hs Hsig Hzones Hopen.
  - cbn. eexists. split; [reflexivity|exact Hzones].
  - cbn [length seq combine fold_left].
    assert (sig = is_significant threshold (nth s delta_gradient 0)) as Hsig0.
    { specialize (Hsig 0%nat ltac:(cbn; lia)). cbn [nth] in Hsig.
      rewrite Nat.add_0_r in Hsig. exact Hsig. }
    assert (forall j, (j < length sigs)%nat ->
              nth j sigs false
              = is_significant threshold (nth (S s + j) delta_gradient 0))
      as Hsig'.
    { intros j Hj. specialize (Hsig (S j) ltac:(cbn; lia)).
      cbn [nth] in Hsig. rewrite Hsig. f_equal. f_equal. lia. }
    cbn [length] in Hs.
    unfold overtaking_step at 2. cbn [bind].
    destruct sig, in_zone; cbn [andb negb].
    + apply IH; [lia|exact Hsig'|exact Hzones|].
      intros _. destruct (Hopen eq_refl) as (k & Hk & Hz & Hks).
      exists k. split; [lia|]. split; assumption.
    + apply IH; [lia|exact Hsig'|exact Hzones|].
      intros _. exists s. split; [lia|]. split; [reflexivity|].
      symmetry. exact Hsig0.
    + destruct (Hopen eq_refl) as (k & Hk & -> & Hks).
      destruct (closed_zone_ok k s ltac:(lia) Hks) as (z & -> & Hz).
      cbn [bind]. apply IH; [lia|exact Hsig'| |discriminate].
      apply Forall_app. split; [exact Hzones|]. constructor; [exact Hz|].
      constructor.
    + apply IH; [lia|exact Hsig'|exact Hzones|discriminate].
Qed.

End OvertakingLoop.

(** X17.  For strictly increasing distances, at least two samples and a
    delta array of the same length, [find_overtaking_zones] returns
    without raising, and every zone it reports runs from one sample to a
    strictly later one, has [delta_change] equal to the delta at its end
    minus the delta at its start, and an [intensity] above
    [threshold / 1000]. *)
Theorem overtaking_zones_well_formed (delta distances : list Q)
    (threshold : Q) :
  Sorted Qlt distances ->
  (2 <= length distances)%nat ->
  length delta = length distances ->
  exists zones,
    find_overtaking_zones delta distances threshold = Ok zones
    /\ Forall (overtaking_zone_ok delta distances threshold) zones.
Proof.
  intros Hs H2 Hlen.
  assert (StronglySorted Qlt distances) as Hss.
  { apply Sorted_StronglySorted; [|exact Hs].
    intros a b c. apply Qlt_trans. }
  unfold find_overtaking_zones.
  destruct (np_gradient_ok delta distances) as (g & -> & Hg);
    [congruence|exact H2|].
  cbn [bind].
  destruct (overtaking_fold_ok delta distances g threshold Hss Hlen
              ltac:(congruence) (map (is_significant threshold) g)
              0%nat [] false 0) as (final & -> & Hfinal).
  - rewrite length_map. cbn. congruence.
  - intros j Hj. rewrite length_map in Hj. cbn [Nat.add].
    rewrite (nth_indep _ false (is_significant threshold 0))
      by (rewrite length_map; exact Hj).
    apply map_nth.
  - constructor.
  - discriminate.
  - cbn [bind]. eexists. split; [reflexivity|exact Hfinal].
Qed.

Lemma overtaking_zones_well_formed_witness :
  Sorted Qlt six_distances
  /\ (2 <= length six_distances)%nat
  /\ length step_delta = length six_distances
  /\ exists zones,
      find_overtaking_zones step_delta six_distances (1 # 10) = Ok zones
      /\ length zones = 1%nat
      /\ Forall (overtaking_zone_ok step_delta six_distances (1 # 10)) zones.
Proof.
  assert (Sorted Qlt six_distances) as Hs by (repeat constructor).
  assert (2 <= length six_distances)%nat as H2 by (cbn; lia).
  assert (length step_delta = length six_distances) as Hlen by reflexivity.
  split; [exact Hs|]. split; [exact H2|]. split; [exact Hlen|].
  destruct (overtaking_zones_well_formed step_delta six_distances (1 # 10)
              Hs H2 Hlen) as (zones & Hz & Hok).
  exists zones. split; [exact Hz|]. split; [|exact Hok].
  vm_compute in Hz. injection Hz as <-. reflexivity.
Defined.

Lemma overtaking_fold_never_closes (delta distances delta_gradient : list Q)
    (sigs : list bool) :
  forall s zones in_zone zone_start,
    (forall i j, (i <= j < length sigs)%nat ->
       nth i sigs false = true -> nth j sigs false = true) ->
    (in_zone = true ->
     forall j, (j < length sigs)%nat -> nth j sigs false = true) ->
    exists in_zone' zone_start',
      fold_left (overtaking_step delta distances delta_gradient)
                (combine (seq s (length sigs)) sigs)
                (Ok (zones, in_zone, zone_start))
      = Ok (zones, in_zone', zone_start').
Proof.
  induction sigs as [|sig sigs IH]; intros s zones in_zone zone_start
                                           Hmono Hopen.
  - cbn. eexists _, _. reflexivity.
  - cbn [length seq combine fold_left].
    assert (forall i j, (i <= j < length sigs)%nat ->
              nth i sigs false = true -> nth j sigs false = true) as Hmono'.
    { intros i j Hij Hi.
      exact (Hmono (S i) (S j) ltac:(cbn [length]; lia) Hi). }
    unfold overtaking_step at 2. cbn [bind].
    destruct sig, in_zone; cbn [andb negb].
    + apply IH; [exact Hmono'|]. intros _ j Hj.
      exact (Hopen eq_refl (S j) ltac:(cbn [length]; lia)).
    + apply IH; [exact Hmono'|]. intros _ j Hj.
      exact (Hmono 0%nat (S j) ltac:(cbn [length]; lia) eq_refl).
    + specialize (Hopen eq_refl 0%nat ltac:(cbn [length]; lia)).
      cbn [nth] in Hopen. discriminate.
    + apply IH; [exact Hmono'|discriminate].
Qed.

(** X18.  A stretch of significant change that lasts to the final sample
    is never reported: when the gradient is computed and, once significant
    at a sample, is significant at every later one, [find_overtaking_zones]
    returns the empty list.  A delta that gains steadily over the whole lap
    therefore has no overtaking zone. *)
Theorem unclosed_zone_is_not_reported (delta distances : list Q)
    (threshold : Q) (delta_gradient : list Q) :
  np_gradient delta distances = Ok delta_gradient ->
  (forall i j, (i <= j < length delta_gradient)%nat ->
     is_significant threshold (nth i delta_gradient 0) = true ->
     is_significant threshold (nth j delta_gradient 0) = true) ->
  find_overtaking_zones delta distances threshold = Ok [].
Proof.
  intros Hg Hmono. unfold find_overtaking_zones. rewrite Hg. cbn [bind].
  set (sigs := map (is_significant threshold) delta_gradient).
  assert (forall j, (j < length delta_gradient)%nat ->
            nth j sigs false
            = is_significant threshold (nth j delta_gradient 0)) as Hnth.
  { intros j Hj. unfold sigs.
    rewrite (nth_indep _ false (is_significant threshold 0))
      by (rewrite length_map; exact Hj).
    apply map_nth. }
  destruct (overtaking_fold_never_closes delta distances delta_gradient sigs
              0%nat [] false 0) as (in_zone' & zone_start' & ->).
  - intros i j Hij Hi. unfold sigs in *. rewrite length_map in Hij.
    rewrite Hnth in Hi by lia. rewrite Hnth by lia.
    exact (Hmono i j Hij Hi).
  - discriminate.
  - reflexivity.
Qed.

Lemma unclosed_zone_is_not_reported_witness :
  exists delta_gradient,
    np_gradient ramp_delta six_distances = Ok delta_gradient
    /\ Forall (fun g => is_significant (1 # 10) g = true) delta_gradient
    /\ find_overtaking_zones ramp_delta six_distances (1 # 10) = Ok [].
Proof.
  eexists. split; [vm_compute; reflexivity|].
  split; [repeat constructor|].
  eapply unclosed_zone_is_not_reported; [vm_compute; reflexivity|].
  intros i j Hij _.
  do 6 (destruct j as [|j]; [reflexivity|]).
  cbn [length] in Hij. lia.
Defined.

(** * The windows of [windowed_mse_alignment] *)

Lemma np_linspace_nth (start stop : Q) (n i : nat) :
  (i <= n)%nat ->
  nth i (np_linspace start stop n) 0
  = if Nat.eqb i n then (if Nat.eqb n 0 then start else stop)
    else start + inject_Z (Z.of_nat i)
                 * ((stop - start) / inject_Z (Z.of_nat n)).
Proof.
  intro Hi. unfold np_linspace.
  set (g := fun i0 : nat =>
              if Nat.eqb i0 n then (if Nat.eqb n 0 then start else stop)
              else start + inject_Z (Z.of_nat i0)
                           * ((stop - start) / inject_Z (Z.of_nat n))).
  rewrite (nth_indep _ 0 (g 0%nat)) by (rewrite length_map, length_seq; lia).
  rewrite (map_nth g (seq 0 (S n)) 0%nat i), seq_nth by lia. reflexivity.
Qed.

Lemma np_linspace_step_up (start stop : Q) (n i : nat) :
  start <= stop -> (i < n)%nat ->
  nth i (np_linspace start stop n) 0 <= nth (S i) (np_linspace start stop n) 0.
Proof.
  intros Hle Hi. rewrite !np_linspace_nth by lia.
  assert (Nat.eqb i n = false) as -> by (apply Nat.eqb_neq; lia).
  assert (0 < inject_Z (Z.of_nat n)) as Hn.
  { change 0 with (inject_Z 0). rewrite <- Zlt_Qlt. lia. }
  set (qn := inject_Z (Z.of_nat n)) in *.
  assert (0 <= (stop - start) / qn) as Hstep by (apply Qdiv_nonneg; lra).
  assert (qn * ((stop - start) / qn) == stop - start) as Hfull
    by (field; lra).
  assert (inject_Z (Z.of_nat (S i)) == inject_Z (Z.of_nat i) + 1) as HS.
  { rewrite Nat2Z.inj_succ. unfold Z.succ. rewrite inject_Z_plus.
    reflexivity. }
  destruct (Nat.eqb (S i) n) eqn:E.
  - apply Nat.eqb_eq in E.
    assert (Nat.eqb n 0 = false) as -> by (apply Nat.eqb_neq; lia).
    assert (inject_Z (Z.of_nat i) == qn - 1) as Hi1.
    { unfold qn. rewrite <- E, HS. ring. }
    rewrite Hi1. nra.
  - rewrite HS. nra.
Qed.

(** X19.  For at least one window and traces whose distance ranges
    overlap, the window boundaries run from the common minimum to the
    common maximum without decreasing, and the masks are inclusive at both
    ends: every interior boundary point lies inside the window that ends
    there and inside the window that starts there. *)
Theorem adjacent_windows_share_their_boundary {T : Type}
    (tel1 tel2 : DataFrame T) (num_windows : nat) :
  (1 <= num_windows)%nat ->
  min_dist_of tel1 tel2 <= max_dist_of tel1 tel2 ->
  let wb := window_boundaries tel1 tel2 num_windows in
  length wb = S num_windows
  /\ nth 0 wb 0 == min_dist_of tel1 tel2
  /\ nth num_windows wb 0 = max_dist_of tel1 tel2
  /\ (forall i, (i < num_windows)%nat -> nth i wb 0 <= nth (S i) wb 0)
  /\ (forall i, (S i < num_windows)%nat ->
        in_window (nth i wb 0) (nth (S i) wb 0) (nth (S i) wb 0) = true
        /\ in_window (nth (S i) wb 0) (nth (S (S i)) wb 0) (nth (S i) wb 0)
           = true).
Proof.
  intros Hn Hspan wb. unfold wb, window_boundaries.
  set (lo := min_dist_of tel1 tel2) in *.
  set (hi := max_dist_of tel1 tel2) in *.
  pose proof (np_linspace_step_up lo hi num_windows) as Hup.
  split; [unfold np_linspace; rewrite length_map, length_seq; reflexivity|].
  split; [|split; [|split]].
  - rewrite np_linspace_nth by lia.
    assert (Nat.eqb 0 num_windows = false) as ->
      by (apply Nat.eqb_neq; lia).
    cbn. ring.
  - rewrite np_linspace_nth by lia. rewrite Nat.eqb_refl.
    assert (Nat.eqb num_windows 0 = false) as ->
      by (apply Nat.eqb_neq; lia).
    reflexivity.
  - intros i Hi. apply Hup; assumption.
  - intros i Hi. unfold in_window. split; apply andb_true_intro; split;
      apply Qle_bool_iff; try lra; apply Hup; try assumption; lia.
Qed.

Lemma adjacent_windows_share_their_boundary_witness :
  (1 <= 2)%nat
  /\ min_dist_of drift_ref drift_target <= max_dist_of drift_ref drift_target
  /\ in_window (nth 0 (window_boundaries drift_ref drift_target 2) 0)
               (nth 1 (window_boundaries drift_ref drift_target 2) 0)
               (nth 1 (window_boundaries drift_ref drift_target 2) 0)
     = true
  /\ in_window (nth 1 (window_boundaries drift_ref drift_target 2) 0)
               (nth 2 (window_boundaries drift_ref drift_target 2) 0)
               (nth 1 (window_boundaries drift_ref drift_target 2) 0)
     = true.
Proof.
  assert (1 <= 2)%nat as Hn by lia.
  assert (min_dist_of drift_ref drift_target
          <= max_dist_of drift_ref drift_target) as Hspan
    by (vm_compute; discriminate).
  split; [exact Hn|]. split; [exact Hspan|].
  destruct (adjacent_windows_share_their_boundary drift_ref drift_target 2
              Hn Hspan) as (_ & _ & _ & _ & H).
  exact (H 0%nat ltac:(lia)).
Defined.
